(** * WebrtcManager: the perfect-negotiation coordinator of lib/webrtc-manager.js

    A shallow embedding of the class [WebrtcManager] and of the callbacks it
    installs on each [RTCPeerConnection].

    - The manager's mutable state ([this.peers], the session objects it
      points to, the callbacks set on the connections) is an explicit store,
      threaded by a small state-and-exception monad [M].
    - The transport engine (wrtc) is outside the program: every call to it is
      recorded in a trace and answered by an oracle [Engine], a function of
      the history; a promise that rejects is an exception at its [await].
      [signalingChannel.sendTo] and the console are recorded in the same
      trace and do not throw.
    - An [async] function is run to completion: each [await] is answered at
      once.  What another handler may have done meanwhile is covered by
      stating the theorems for an arbitrary starting state (for instance
      [makingOffer = true]).  A promise nobody awaits and that rejects is
      recorded as [UnhandledRejection].
    - [this.peers = {}] is an ordinary object: besides its own properties
      (a [gmap]) it inherits the members of [Object.prototype], which both
      the [in] operator and a property read see.  The one write the manager
      can make to [Object.prototype] itself (line 165, reached with the
      sender "__proto__") is tracked by the flag [polluted]. *)

From stdpp Require Import gmap strings list fin_maps.

Local Open Scope string_scope.
Local Open Scope list_scope.

(** ** JavaScript values that reach the manager from outside *)

Inductive JsVal :=
| JUndefined
| JNull
| JBool (b : bool)
| JNum (n : Z)
| JStr (s : string)
| JObj (tag : string).

(** ToBoolean, as used by [!], [&&], [||], [if] and [?:] (NaN is not
    represented). *)
Definition truthy (v : JsVal) : bool :=
  match v with
  | JUndefined | JNull => false
  | JBool b => b
  | JNum n => negb (n =? 0)%Z
  | JStr s => negb (String.eqb s "")
  | JObj _ => true
  end.

Inductive Error :=
| TypeError (what : string)
| EngineError (what : string)
| AppError (what : string).

(** RTCSessionDescriptionInit: [{ type, sdp }]. *)
Record SessionDescription := {
  type : string;
  sdpText : option string;
}.

(** The literal [{ type: "rollback" }] of updateSessionDescription. *)
Definition rollback : SessionDescription :=
  {| type := "rollback"; sdpText := None |}.

Definition conn := nat.
Definition chan := nat.
Definition loc := nat.

(** The session object built by addPeer (lines 90-99). *)
Record Peer := {
  peerId : string;
  peerType : string;
  polite : JsVal;
  rtcPeerConnection : conn;
  dataChannel : option chan;
  makingOffer : bool;
  ignoreOffer : bool;
  isSettingRemoteAnswerPending : bool;
}.

(** What [signalingChannel.sendTo(peerId, ...)] is given. *)
Inductive OutMsg :=
| OutSdp (sdp : option SessionDescription)
| OutIce (ice : JsVal).

(** Everything the manager does to the outside, in order. *)
Inductive Event :=
| NewRTCPeerConnection (c : conn)
| CreateDataChannel (c : conn) (label : string)
| CreateOffer (c : conn)
| CreateAnswer (c : conn)
| SetLocalDescription (c : conn) (d : SessionDescription)
| SetRemoteDescription (c : conn) (d : SessionDescription)
| AddIceCandidate (c : conn) (candidate : JsVal)
| RestartIce (c : conn)
| CloseConnection (c : conn)
| CloseDataChannel (ch : chan)
| DataChannelHandler (id : string)
| SendTo (to : string) (m : OutMsg)
| ConsoleLog (text : string)
| ConsoleLogError (e : Error)
| ConsoleError (e : Error)
| UnhandledRejection (e : Error).

(** The answers of the transport engine, each a function of the history so
    far.  [close] and [restartIce] cannot fail in the WebRTC API and have no
    entry. *)
Record Engine := {
  eng_createDataChannel : list Event -> conn -> string -> option Error;
  eng_createOffer : list Event -> conn -> Error + SessionDescription;
  eng_createAnswer : list Event -> conn -> Error + SessionDescription;
  eng_setLocalDescription : list Event -> conn -> SessionDescription -> option Error;
  eng_setRemoteDescription : list Event -> conn -> SessionDescription -> option Error;
  eng_addIceCandidate : list Event -> conn -> JsVal -> option Error;
  eng_signalingState : list Event -> conn -> string;
  eng_iceConnectionState : list Event -> conn -> string;
  eng_localDescription : list Event -> conn -> option SessionDescription;
}.

(** The constructor's [options]; [dataChannelHandler] is the host's callback,
    of which only the outcome matters here: [Some e] when it throws [e].  It
    is taken not to modify the session object it is handed. *)
Record Options := {
  enableDataChannel : bool;
  dataChannelHandler : string -> option Error;
}.

(** A message of the signaling channel (the shape read at lines 44-45); a
    field the sender left out is undefined. *)
Record NewPeer := {
  newPeerId : string;
  newPeerType : string;
}.

Record Payload := {
  action : string;
  connections : option (list NewPeer);
  bePolite : JsVal;
  sdp : option SessionDescription;
  ice : JsVal;
}.

Record Message := {
  from : string;
  payload : Payload;
}.

(** The manager ([this]) together with the objects it reaches. *)
Record World := {
  ourPeerId : string;
  ourPeerType : string;
  verbose : bool;
  options : Options;
  peers : gmap string loc;          (* own properties of this.peers *)
  heap : gmap loc Peer;             (* the session objects *)
  wired : gmap conn loc;            (* connections whose on* callbacks are set, with the peer they captured *)
  polluted : bool;                  (* Object.prototype.ignoreOffer has been assigned (false) *)
  trace : list Event;
}.

Definition with_peers (f : gmap string loc -> gmap string loc) (w : World) : World :=
  {| ourPeerId := ourPeerId w; ourPeerType := ourPeerType w; verbose := verbose w;
     options := options w; peers := f (peers w); heap := heap w; wired := wired w;
     polluted := polluted w; trace := trace w |}.

Definition with_heap (f : gmap loc Peer -> gmap loc Peer) (w : World) : World :=
  {| ourPeerId := ourPeerId w; ourPeerType := ourPeerType w; verbose := verbose w;
     options := options w; peers := peers w; heap := f (heap w); wired := wired w;
     polluted := polluted w; trace := trace w |}.

Definition with_wired (f : gmap conn loc -> gmap conn loc) (w : World) : World :=
  {| ourPeerId := ourPeerId w; ourPeerType := ourPeerType w; verbose := verbose w;
     options := options w; peers := peers w; heap := heap w; wired := f (wired w);
     polluted := polluted w; trace := trace w |}.

Definition record (e : Event) (w : World) : World :=
  {| ourPeerId := ourPeerId w; ourPeerType := ourPeerType w; verbose := verbose w;
     options := options w; peers := peers w; heap := heap w; wired := wired w;
     polluted := polluted w; trace := trace w ++ [e] |}.

Definition pollute (w : World) : World :=
  {| ourPeerId := ourPeerId w; ourPeerType := ourPeerType w; verbose := verbose w;
     options := options w; peers := peers w; heap := heap w; wired := wired w;
     polluted := true; trace := trace w |}.

(** The constructor (lines 20-35); [this.verbose] is never assigned there, so
    it reads as undefined unless the host sets it. *)
Definition constructor (ourPeerId ourPeerType : string) (options : Options) : World :=
  {| ourPeerId := ourPeerId; ourPeerType := ourPeerType; verbose := false;
     options := options; peers := ∅; heap := ∅; wired := ∅; polluted := false;
     trace := [] |}.

(** ** Property lookup on [this.peers] *)

(** The members every plain object inherits from [Object.prototype]; none
    of them is enumerable. *)
Definition objectPrototype : list string :=
  [ "constructor"; "__proto__"; "hasOwnProperty"; "isPrototypeOf";
    "propertyIsEnumerable"; "toLocaleString"; "toString"; "valueOf";
    "__defineGetter__"; "__defineSetter__"; "__lookupGetter__";
    "__lookupSetter__" ].

Definition builtin (k : string) : bool :=
  existsb (String.eqb k) objectPrototype.

(** Once [Object.prototype.ignoreOffer] has been assigned, every object
    inherits it, as an enumerable property whose value is [false]. *)
Definition inherits_ignoreOffer (w : World) (k : string) : bool :=
  polluted w && String.eqb k "ignoreOffer".

(** What [this.peers[k]] evaluates to. *)
Inductive PeerRef :=
| RefPeer (l : loc)          (* a session object *)
| RefBuiltin (k : string)    (* a member of Object.prototype: truthy, with none of a session's properties *)
| RefFalse                   (* the inherited ignoreOffer *)
| RefUndefined.

Definition peers_get (w : World) (k : string) : PeerRef :=
  match peers w !! k with
  | Some l => RefPeer l
  | None =>
      if builtin k then RefBuiltin k
      else if inherits_ignoreOffer w k then RefFalse
      else RefUndefined
  end.

(** [k in this.peers] *)
Definition peers_in (w : World) (k : string) : bool :=
  match peers w !! k with
  | Some _ => true
  | None => builtin k || inherits_ignoreOffer w k
  end.

Definition ref_truthy (r : PeerRef) : bool :=
  match r with
  | RefPeer _ | RefBuiltin _ => true
  | RefFalse | RefUndefined => false
  end.

(** ** The monad: state, and an exception or rejected promise *)

Inductive Completion (A : Type) :=
| Normal (a : A)
| Throw (e : Error).
Arguments Normal {A} a.
Arguments Throw {A} e.

Definition M (A : Type) : Type := World -> Completion A * World.

Definition ret {A} (a : A) : M A := fun w => (Normal a, w).

Definition bind {A B} (m : M A) (k : A -> M B) : M B :=
  fun w =>
    match m w with
    | (Normal a, w') => k a w'
    | (Throw e, w') => (Throw e, w')
    end.

Definition throw {A} (e : Error) : M A := fun w => (Throw e, w).

(** [try { m } catch (e) { h e }] *)
Definition try_catch {A} (m : M A) (h : Error -> M A) : M A :=
  fun w =>
    match m w with
    | (Normal a, w') => (Normal a, w')
    | (Throw e, w') => h e w'
    end.

(** [try { m } finally { f }] *)
Definition try_finally {A} (m : M A) (f : M unit) : M A :=
  fun w =>
    match m w with
    | (r, w') =>
        match f w' with
        | (Normal _, w'') => (r, w'')
        | (Throw e, w'') => (Throw e, w'')
        end
    end.

(** Calling an async function without awaiting it: the caller goes on; a
    rejection is left unhandled. *)
Definition spawn (m : M unit) : M unit :=
  fun w =>
    match m w with
    | (Normal _, w') => (Normal tt, w')
    | (Throw e, w') => (Normal tt, record (UnhandledRejection e) w')
    end.

Definition get : M World := fun w => (Normal w, w).
Definition modify (f : World -> World) : M unit := fun w => (Normal tt, f w).
Definition emit (e : Event) : M unit := modify (record e).

Notation "'let*' x ':=' m 'in' k" := (bind m (fun x => k))
  (at level 10, x name, m at level 100, k at level 200).
Notation "m '>>' k" := (bind m (fun _ => k))
  (at level 100, k at level 200, right associativity).

(** [xs.forEach(f)]: an exception ends the loop. *)
Fixpoint forEach {A} (xs : list A) (f : A -> M unit) : M unit :=
  match xs with
  | [] => ret tt
  | x :: xs' => f x >> forEach xs' f
  end.

(** [this.verbose ? console.log(text) : ""] *)
Definition log_verbose (text : string) : M unit :=
  let* w := get in
  if verbose w then emit (ConsoleLog text) else ret tt.

Definition console_error (e : Error) : M unit := emit (ConsoleError e).

Definition sendTo (to : string) (m : OutMsg) : M unit := emit (SendTo to m).

(** ** Reading and writing the properties of [peer] *)

(** [peer.f] for a property [f] that only session objects have: a TypeError
    on undefined, undefined ([None]) on a built-in object and on [false]
    (whose inherited [ignoreOffer] is falsy like undefined). *)
Definition prop {A} (peer : PeerRef) (f : Peer -> A) : M (option A) :=
  match peer with
  | RefUndefined => throw (TypeError "Cannot read properties of undefined")
  | RefBuiltin _ | RefFalse => ret None
  | RefPeer l => fun w => (Normal (f <$> heap w !! l), w)
  end.

Definition set_ignoreOffer (v : bool) (p : Peer) : Peer :=
  {| peerId := peerId p; peerType := peerType p; polite := polite p;
     rtcPeerConnection := rtcPeerConnection p; dataChannel := dataChannel p;
     makingOffer := makingOffer p; ignoreOffer := v;
     isSettingRemoteAnswerPending := isSettingRemoteAnswerPending p |}.

Definition set_makingOffer (v : bool) (p : Peer) : Peer :=
  {| peerId := peerId p; peerType := peerType p; polite := polite p;
     rtcPeerConnection := rtcPeerConnection p; dataChannel := dataChannel p;
     makingOffer := v; ignoreOffer := ignoreOffer p;
     isSettingRemoteAnswerPending := isSettingRemoteAnswerPending p |}.

Definition set_dataChannel (v : option chan) (p : Peer) : Peer :=
  {| peerId := peerId p; peerType := peerType p; polite := polite p;
     rtcPeerConnection := rtcPeerConnection p; dataChannel := v;
     makingOffer := makingOffer p; ignoreOffer := ignoreOffer p;
     isSettingRemoteAnswerPending := isSettingRemoteAnswerPending p |}.

(** [peer.f = v] on a session object. *)
Definition assign (l : loc) (set : Peer -> Peer) : M unit :=
  modify (with_heap (alter set l)).

(** [peer.ignoreOffer = v] (line 165), [peer] being whatever
    [this.peers[from]] gave.  On one of the built-in functions the write is
    invisible here; on [Object.prototype] itself (the value of
    [this.peers["__proto__"]]) it creates the inherited property; on [false]
    it throws, class bodies being strict code.  For a built-in object [v] is
    always false: line 164 yields false or throws. *)
Definition assign_ignoreOffer (peer : PeerRef) (v : bool) : M unit :=
  match peer with
  | RefUndefined => throw (TypeError "Cannot set properties of undefined")
  | RefFalse => throw (TypeError "Cannot create property 'ignoreOffer' on boolean 'false'")
  | RefBuiltin k => if String.eqb k "__proto__" then modify pollute else ret tt
  | RefPeer l => assign l (set_ignoreOffer v)
  end.

(** A method call on [peerConnection], which is undefined when [peer] is not
    a session object. *)
Definition on_conn {A} (peerConnection : option conn) (k : conn -> M A) : M A :=
  match peerConnection with
  | Some c => k c
  | None => throw (TypeError "Cannot read properties of undefined")
  end.

(** The first use of [description] is [description.type] (line 164), a
    TypeError when the message carried no [sdp]. *)
Definition defined (description : option SessionDescription) : M SessionDescription :=
  match description with
  | Some d => ret d
  | None => throw (TypeError "Cannot read properties of undefined (reading 'type')")
  end.

(** A call into the engine: recorded, then answered from the history. *)
Definition engine_call {A} (ev : Event) (answer : list Event -> Error + A) : M A :=
  fun w =>
    match answer (trace w) with
    | inl e => (Throw e, record ev w)
    | inr a => (Normal a, record ev w)
    end.

Definition outcome (o : option Error) : Error + unit :=
  match o with
  | Some e => inl e
  | None => inr tt
  end.

(** The order in which [for (k in this.peers)] visits the own properties is
    the runtime's; all that is used is that it visits each key once. *)
Record KeyOrder := {
  ownKeys : gmap string loc -> list string;
  ownKeys_NoDup : forall m, NoDup (ownKeys m);
  ownKeys_spec : forall m k, k ∈ ownKeys m <-> is_Some (m !! k);
}.

Program Definition mapOrder : KeyOrder :=
  {| ownKeys := fun m => (map_to_list m).*1 |}.
Next Obligation. intros m. apply NoDup_fst_map_to_list. Qed.
Next Obligation.
  intros m k. rewrite list_elem_of_fmap. split.
  - intros [[k' l] [-> H]]. apply elem_of_map_to_list in H. by exists l.
  - intros [l H]. exists (k, l). split; [done|]. by apply elem_of_map_to_list.
Qed.

(** ** The manager *)

Section Manager.

Variable E : Engine.
Variable K : KeyOrder.

(** *** Calls into the engine *)

(** [new RTCPeerConnection(this.config)]: a connection is named by the
    position of its creation in the trace. *)
Definition new_RTCPeerConnection : M conn :=
  let* w := get in
  let c := length (trace w) in
  emit (NewRTCPeerConnection c) >> ret c.

Definition createDataChannel (c : conn) (label : string) : M chan :=
  let* w := get in
  let ch := length (trace w) in
  engine_call (CreateDataChannel c label)
    (fun h => outcome (eng_createDataChannel E h c label)) >>
  ret ch.

Definition createOffer (c : conn) : M SessionDescription :=
  engine_call (CreateOffer c) (fun h => eng_createOffer E h c).

Definition createAnswer (c : conn) : M SessionDescription :=
  engine_call (CreateAnswer c) (fun h => eng_createAnswer E h c).

Definition setLocalDescription (c : conn) (d : SessionDescription) : M unit :=
  engine_call (SetLocalDescription c d) (fun h => outcome (eng_setLocalDescription E h c d)).

Definition setRemoteDescription (c : conn) (d : SessionDescription) : M unit :=
  engine_call (SetRemoteDescription c d) (fun h => outcome (eng_setRemoteDescription E h c d)).

Definition addIceCandidate (c : conn) (candidate : JsVal) : M unit :=
  engine_call (AddIceCandidate c candidate) (fun h => outcome (eng_addIceCandidate E h c candidate)).

(** [peerConnection.signalingState], [.localDescription], [.iceConnectionState] *)
Definition signalingState (c : conn) : M string :=
  let* w := get in ret (eng_signalingState E (trace w) c).

Definition localDescription (c : conn) : M (option SessionDescription) :=
  let* w := get in ret (eng_localDescription E (trace w) c).

Definition iceConnectionState (c : conn) : M string :=
  let* w := get in ret (eng_iceConnectionState E (trace w) c).

(** *** removePeer (lines 218-227) *)

Definition removePeer (peer : PeerRef) : M unit :=
  if ref_truthy peer then
    let* dc := prop peer dataChannel in
    match dc with
    | Some (Some ch) => emit (CloseDataChannel ch)
    | _ => ret tt
    end >>
    let* peerConnection := prop peer rtcPeerConnection in
    on_conn peerConnection (fun c => emit (CloseConnection c)) >>
    let* id := prop peer peerId in
    modify (with_peers (delete (default "undefined" id))) >>
    log_verbose ("Connection with " +:+ default "undefined" id +:+ " has been removed")
  else ret tt.

(** [peer.remove], the closure of line 101 over addPeer's [peerId]. *)
Definition remove (peerId : string) : M unit :=
  let* w := get in
  removePeer (peers_get w peerId).

(** *** The callbacks of updateNegotiationLogic (lines 126-150), closed over
    [peer] and [peerConnection] *)

Definition onicecandidate (l : loc) (candidate : JsVal) : M unit :=
  let* id := prop (RefPeer l) peerId in
  sendTo (default "undefined" id) (OutIce candidate).

Definition onnegotiationneeded (l : loc) (peerConnection : conn) : M unit :=
  try_finally
    (try_catch
       (let* pol := prop (RefPeer l) polite in
        if negb (truthy (default JUndefined pol)) then
          assign l (set_makingOffer true) >>
          let* offer := createOffer peerConnection in
          setLocalDescription peerConnection offer >>
          let* id := prop (RefPeer l) peerId in
          log_verbose ("Sending offer to " +:+ default "undefined" id) >>
          let* ld := localDescription peerConnection in
          sendTo (default "undefined" id) (OutSdp ld)
        else ret tt)
       console_error)
    (assign l (set_makingOffer false)).

Definition oniceconnectionstatechange (peerConnection : conn) : M unit :=
  let* st := iceConnectionState peerConnection in
  if String.eqb st "failed" then emit (RestartIce peerConnection) else ret tt.

Definition updateNegotiationLogic (l : loc) : M unit :=
  let* peerConnection := prop (RefPeer l) rtcPeerConnection in
  on_conn peerConnection (fun c => modify (with_wired <[c := l]>)).

(** The engine raising an event on connection [c]: the callback set on it, if
    any, runs; the promise of the async one is dropped. *)
Definition negotiationneeded (c : conn) : M unit :=
  let* w := get in
  match wired w !! c with
  | Some l => spawn (onnegotiationneeded l c)
  | None => ret tt
  end.

Definition icecandidate (c : conn) (candidate : JsVal) : M unit :=
  let* w := get in
  match wired w !! c with
  | Some l => onicecandidate l candidate
  | None => ret tt
  end.

Definition iceconnectionstatechange (c : conn) : M unit :=
  let* w := get in
  match wired w !! c with
  | Some _ => oniceconnectionstatechange c
  | None => ret tt
  end.

(** *** addPeer (lines 85-117) *)

Definition addPeer (peerId peerType : string) (polite : JsVal) : M unit :=
  let* w := get in
  if peers_in w peerId then
    log_verbose ("A peer connection with " +:+ peerId +:+ " already exists")
  else
    let* c := new_RTCPeerConnection in
    let* w := get in
    let l := fresh (dom (heap w)) in
    modify (with_heap <[l := {| peerId := peerId; peerType := peerType; polite := polite;
                                rtcPeerConnection := c; dataChannel := None;
                                makingOffer := false; ignoreOffer := false;
                                isSettingRemoteAnswerPending := false |}]>) >>
    modify (with_peers <[peerId := l]>) >>
    (if enableDataChannel (options w) then
       let* ch := createDataChannel c (peerId +:+ "Channel") in
       assign l (set_dataChannel (Some ch)) >>
       try_catch
         (emit (DataChannelHandler peerId) >>
          match dataChannelHandler (options w) peerId with
          | Some e => throw e
          | None => ret tt
          end)
         console_error
     else ret tt) >>
    updateNegotiationLogic l.

(** *** updateSessionDescription (lines 160-194) *)

(** Line 164. *)
Definition offerCollision (peer : PeerRef) (peerConnection : option conn)
    (description : SessionDescription) : M bool :=
  if String.eqb (type description) "offer" then
    let* mo := prop peer makingOffer in
    if default false mo then ret true
    else on_conn peerConnection (fun c =>
           let* st := signalingState c in
           ret (negb (String.eqb st "stable")))
  else ret false.

Definition updateSessionDescription (peer : PeerRef)
    (description : option SessionDescription) : M unit :=
  try_catch
    (let* peerConnection := prop peer rtcPeerConnection in
     let* d := defined description in
     let* collision := offerCollision peer peerConnection d in
     let* pol := prop peer polite in
     assign_ignoreOffer peer (negb (truthy (default JUndefined pol)) && collision) >>
     let* ign := prop peer ignoreOffer in
     if default false ign then
       log_verbose "Peer offer was ignore because we are impolite"
     else
       (if collision then
          on_conn peerConnection (fun c => setLocalDescription c rollback) >>
          on_conn peerConnection (fun c => setRemoteDescription c d)
        else
          on_conn peerConnection (fun c => setRemoteDescription c d)) >>
       if String.eqb (type d) "offer" then
         on_conn peerConnection (fun c =>
           let* answer := createAnswer c in
           setLocalDescription c answer) >>
         let* id := prop peer peerId in
         log_verbose ("Sending answer to " +:+ default "undefined" id) >>
         let* ld := on_conn peerConnection localDescription in
         sendTo (default "undefined" id) (OutSdp ld)
       else ret tt)
    console_error.

(** *** updateIceCandidate (lines 202-210) *)

Definition updateIceCandidate (peer : PeerRef) (candidate : JsVal) : M unit :=
  let* peerConnection := prop peer rtcPeerConnection in
  try_catch
    (if truthy candidate then
       on_conn peerConnection (fun c => addIceCandidate c candidate)
     else ret tt)
    (fun error =>
       let* ign := prop peer ignoreOffer in
       if negb (default false ign) then emit (ConsoleLogError error) else ret tt).

(** *** signalingMessageHandler (lines 43-64) *)

Definition signalingMessageHandler (message : Message) : M unit :=
  let from := from message in
  let p := payload message in
  if String.eqb (action p) "open" then
    match connections p with
    | Some cs =>
        forEach cs (fun newPeer => addPeer (newPeerId newPeer) (newPeerType newPeer) (bePolite p))
    | None => throw (TypeError "Cannot read properties of undefined (reading 'forEach')")
    end
  else if String.eqb (action p) "close" then
    let* w := get in
    removePeer (peers_get w from)
  else if String.eqb (action p) "sdp" then
    let* w := get in
    (if verbose w then
       let* d := defined (sdp p) in
       emit (ConsoleLog ("Received " +:+ type d +:+ " from " +:+ from))
     else ret tt) >>
    spawn (updateSessionDescription (peers_get w from) (sdp p))
  else if String.eqb (action p) "ice" then
    let* w := get in
    spawn (updateIceCandidate (peers_get w from) (ice p))
  else
    log_verbose ("Received un an unkown action " +:+ action p).

(** *** signalingDisconnectHandler (lines 72-76) *)

(** The keys [for (const peerId in this.peers)] visits: the own ones, then
    the inherited enumerable one if there is one and no own key hides it. *)
Definition forIn_keys (w : World) : list string :=
  ownKeys K (peers w)
  ++ (if polluted w && negb (bool_decide (is_Some (peers w !! "ignoreOffer")))
      then ["ignoreOffer"] else []).

(** The body of the loop, [this.peers[key].remove()], for one key. *)
Definition signalingDisconnectHandler_body (key : string) : M unit :=
  let* w := get in
  match peers w !! key with
  | Some l =>
      let* id := prop (RefPeer l) peerId in
      remove (default "undefined" id)
  | None =>
      if inherits_ignoreOffer w key
      then throw (TypeError "this.peers[peerId].remove is not a function")
      else ret tt   (* deleted before the loop reached it: not visited *)
  end.

Definition signalingDisconnectHandler : M unit :=
  let* w := get in
  forEach (forIn_keys w) signalingDisconnectHandler_body.

End Manager.

(** The value line 164 computes for a session object. *)
Definition collides (E : Engine) (w : World) (p : Peer) (d : SessionDescription) : bool :=
  String.eqb (type d) "offer"
  && (makingOffer p
      || negb (String.eqb (eng_signalingState E (trace w) (rtcPeerConnection p)) "stable")).

(** ** Example engines and states, for the concrete instances below *)

Definition offer_from (who : string) : SessionDescription :=
  {| type := "offer"; sdpText := Some ("v=0 o=" +:+ who) |}.

Definition answer_from (who : string) : SessionDescription :=
  {| type := "answer"; sdpText := Some ("v=0 o=" +:+ who) |}.

(** The description last handed to setLocalDescription on [c]. *)
Definition last_local (h : list Event) (c : conn) : option SessionDescription :=
  last (omap (fun e => match e with
                       | SetLocalDescription c' d => if decide (c' = c) then Some d else None
                       | _ => None
                       end) h).

(** An engine on which every call succeeds and whose connections report
    the given signaling state. *)
Definition engine_ok (state : string) : Engine :=
  {| eng_createDataChannel := fun _ _ _ => None;
     eng_createOffer := fun _ _ => inr (offer_from "alice");
     eng_createAnswer := fun _ _ => inr (answer_from "alice");
     eng_setLocalDescription := fun _ _ _ => None;
     eng_setRemoteDescription := fun _ _ _ => None;
     eng_addIceCandidate := fun _ _ _ => None;
     eng_signalingState := fun _ _ => state;
     eng_iceConnectionState := fun _ _ => "new";
     eng_localDescription := last_local |}.

(** An engine that has a local offer pending and rejects a rollback. *)
Definition engine_no_rollback : Engine :=
  {| eng_createDataChannel := fun _ _ _ => None;
     eng_createOffer := fun _ _ => inr (offer_from "alice");
     eng_createAnswer := fun _ _ => inr (answer_from "alice");
     eng_setLocalDescription := fun _ _ d =>
       if String.eqb (type d) "rollback"
       then Some (EngineError "rollback is not supported") else None;
     eng_setRemoteDescription := fun _ _ _ => None;
     eng_addIceCandidate := fun _ _ _ => None;
     eng_signalingState := fun _ _ => "have-local-offer";
     eng_iceConnectionState := fun _ _ => "new";
     eng_localDescription := last_local |}.

(** An engine on which createOffer rejects. *)
Definition engine_no_offer : Engine :=
  {| eng_createDataChannel := fun _ _ _ => None;
     eng_createOffer := fun _ _ => inl (EngineError "createOffer failed");
     eng_createAnswer := fun _ _ => inr (answer_from "alice");
     eng_setLocalDescription := fun _ _ _ => None;
     eng_setRemoteDescription := fun _ _ _ => None;
     eng_addIceCandidate := fun _ _ _ => None;
     eng_signalingState := fun _ _ => "stable";
     eng_iceConnectionState := fun _ _ => "new";
     eng_localDescription := last_local |}.

(** An engine on which addIceCandidate rejects. *)
Definition engine_no_candidate : Engine :=
  {| eng_createDataChannel := fun _ _ _ => None;
     eng_createOffer := fun _ _ => inr (offer_from "alice");
     eng_createAnswer := fun _ _ => inr (answer_from "alice");
     eng_setLocalDescription := fun _ _ _ => None;
     eng_setRemoteDescription := fun _ _ _ => None;
     eng_addIceCandidate := fun _ _ _ => Some (EngineError "addIceCandidate failed");
     eng_signalingState := fun _ _ => "stable";
     eng_iceConnectionState := fun _ _ => "new";
     eng_localDescription := last_local |}.

Definition with_channels : Options :=
  {| enableDataChannel := true; dataChannelHandler := fun _ => None |}.

Definition alice : World := constructor "alice" "robot" with_channels.

(** alice after [addPeer("bob", "robot", polite)]: bob's session is at
    location 0 on connection 0, with data channel 1. *)
Definition alice_bob (polite : JsVal) : World :=
  (addPeer (engine_ok "stable") "bob" "robot" polite alice).2.

(** alice with two sessions, bob and carol. *)
Definition alice_bob_carol : World :=
  (addPeer (engine_ok "stable") "carol" "robot" (JBool true) (alice_bob (JBool false))).2.

Definition message (from action : string) (sdp : option SessionDescription)
    (ice : JsVal) : Message :=
  {| from := from;
     payload := {| action := action; connections := None; bePolite := JUndefined;
                   sdp := sdp; ice := ice |} |}.

(** bob's session object as addPeer builds it in [alice_bob]. *)
Definition bob_session (polite : JsVal) : Peer :=
  {| peerId := "bob"; peerType := "robot"; polite := polite;
     rtcPeerConnection := 0; dataChannel := Some 1;
     makingOffer := false; ignoreOffer := false;
     isSettingRemoteAnswerPending := false |}.

(** ** The state invariant *)

(** What addPeer establishes and nothing breaks: every own key of
    [this.peers] points to a session object whose [peerId] is that key. *)
Definition wf (w : World) : bool :=
  forallb (fun kl : string * loc =>
             match heap w !! kl.2 with
             | Some p => String.eqb (peerId p) kl.1
             | None => false
             end)
          (map_to_list (peers w)).

(** The calls that release a session's resources (lines 220-223). *)
Definition closing (p : Peer) : list Event :=
  match dataChannel p with
  | Some ch => [CloseDataChannel ch; CloseConnection (rtcPeerConnection p)]
  | None => [CloseConnection (rtcPeerConnection p)]
  end.

(** The events [w'] has recorded since [w]. *)
Definition since (w w' : World) : list Event :=
  drop (length (trace w)) (trace w').

(** The log lines of the two verbose branches that precede a send. *)
Definition sending_offer (w : World) (p : Peer) : list Event :=
  if verbose w then [ConsoleLog ("Sending offer to " +:+ peerId p)] else [].

Definition sending_answer (w : World) (p : Peer) : list Event :=
  if verbose w then [ConsoleLog ("Sending answer to " +:+ peerId p)] else [].

(** ** Runs of the manager *)

(** What can happen to a manager: the signaling channel delivers a message
    or disconnects, the engine raises an event on a connection, or the host
    calls the [remove] of a session it was handed. *)
Inductive Input :=
| Incoming (m : Message)
| Disconnected
| NegotiationNeeded (c : conn)
| IceCandidate (c : conn) (candidate : JsVal)
| IceConnectionStateChange (c : conn)
| RemoveCalled (id : string).            (* the host calls peer.remove() *)

Definition handle (E : Engine) (K : KeyOrder) (i : Input) : M unit :=
  match i with
  | Incoming m => signalingMessageHandler E m
  | Disconnected => signalingDisconnectHandler K
  | NegotiationNeeded c => negotiationneeded E c
  | IceCandidate c candidate => icecandidate c candidate
  | IceConnectionStateChange c => iceconnectionstatechange E c
  | RemoveCalled id => remove id
  end.

(** The state after a sequence of inputs; an exception thrown to the caller
    of a handler leaves the state as the handler left it. *)
Definition run (E : Engine) (K : KeyOrder) (inputs : list Input) (w : World) : World :=
  fold_left (fun w i => (handle E K i w).2) inputs w.

(** [m] keeps the invariant, however it completes. *)
Definition preserves {A} (m : M A) : Prop :=
  forall w, wf w = true -> wf (m w).2 = true.

(** ** Relations between the state before and after a handler *)

(** [m] takes every state to one that [R] relates to it. *)
Definition lifts (R : World -> World -> Prop) {A} (m : M A) : Prop :=
  forall w, R w (m w).2.

(** The session objects of [w] are still there in [w'], each with the
    identity addPeer gave it. *)
Definition same_sessions (w w' : World) : Prop :=
  forall l p, heap w !! l = Some p ->
    exists p', heap w' !! l = Some p'
      /\ peerId p' = peerId p /\ peerType p' = peerType p
      /\ polite p' = polite p /\ rtcPeerConnection p' = rtcPeerConnection p.

(** [m] only appends to the trace, and only events that pass [ok]. *)
Definition emits (ok : Event -> bool) {A} (m : M A) : Prop :=
  forall w, exists evs, trace (m w).2 = trace w ++ evs /\ forallb ok evs = true.

(** [m] completes normally in every state. *)
Definition total {A} (m : M A) : Prop :=
  forall w, exists a, (m w).1 = Normal a.

(** Sessions are only added: every key stays, with the object it points to. *)
Definition grows (w w' : World) : Prop :=
  (forall k l, peers w !! k = Some l -> peers w' !! k = Some l)
  /\ (polluted w = true -> polluted w' = true).

(** Creating or closing a connection or a data channel. *)
Definition is_lifecycle (e : Event) : bool :=
  match e with
  | NewRTCPeerConnection _ | CreateDataChannel _ _
  | CloseConnection _ | CloseDataChannel _ => true
  | _ => false
  end.

(** The inputs that are meant to change the set of sessions: an "open" or
    "close" message, a disconnect, a call of remove. *)
Definition changes_membership (i : Input) : bool :=
  match i with
  | Incoming m =>
      String.eqb (action (payload m)) "open" || String.eqb (action (payload m)) "close"
  | Disconnected | RemoveCalled _ => true
  | NegotiationNeeded _ | IceCandidate _ _ | IceConnectionStateChange _ => false
  end.

(** Whether the manager reported or leaked an error in a stretch of trace. *)
Definition is_rejection (e : Event) : bool :=
  match e with
  | UnhandledRejection _ => true
  | _ => false
  end.

Definition is_send (e : Event) : bool :=
  match e with
  | SendTo _ _ => true
  | _ => false
  end.

(** ** More example engines and states *)

(** An engine that refuses to create data channels. *)
Definition engine_no_channel : Engine :=
  {| eng_createDataChannel := fun _ _ _ => Some (EngineError "createDataChannel failed");
     eng_createOffer := fun _ _ => inr (offer_from "alice");
     eng_createAnswer := fun _ _ => inr (answer_from "alice");
     eng_setLocalDescription := fun _ _ _ => None;
     eng_setRemoteDescription := fun _ _ _ => None;
     eng_addIceCandidate := fun _ _ _ => None;
     eng_signalingState := fun _ _ => "stable";
     eng_iceConnectionState := fun _ _ => "new";
     eng_localDescription := last_local |}.

(** An engine on which every setLocalDescription rejects. *)
Definition engine_no_local : Engine :=
  {| eng_createDataChannel := fun _ _ _ => None;
     eng_createOffer := fun _ _ => inr (offer_from "alice");
     eng_createAnswer := fun _ _ => inr (answer_from "alice");
     eng_setLocalDescription := fun _ _ _ => Some (EngineError "setLocalDescription failed");
     eng_setRemoteDescription := fun _ _ _ => None;
     eng_addIceCandidate := fun _ _ _ => None;
     eng_signalingState := fun _ _ => "stable";
     eng_iceConnectionState := fun _ _ => "new";
     eng_localDescription := last_local |}.

(** An engine whose connections report a failed ICE state. *)
Definition engine_ice_failed : Engine :=
  {| eng_createDataChannel := fun _ _ _ => None;
     eng_createOffer := fun _ _ => inr (offer_from "alice");
     eng_createAnswer := fun _ _ => inr (answer_from "alice");
     eng_setLocalDescription := fun _ _ _ => None;
     eng_setRemoteDescription := fun _ _ _ => None;
     eng_addIceCandidate := fun _ _ _ => None;
     eng_signalingState := fun _ _ => "stable";
     eng_iceConnectionState := fun _ _ => "failed";
     eng_localDescription := last_local |}.

(** Options whose data-channel callback throws. *)
Definition with_throwing_handler : Options :=
  {| enableDataChannel := true;
     dataChannelHandler := fun _ => Some (AppError "handler failed") |}.

Definition without_channels : Options :=
  {| enableDataChannel := false; dataChannelHandler := fun _ => None |}.

(** An "open" message listing the given peers. *)
Definition open_message (cs : list NewPeer) (polite : JsVal) : Message :=
  {| from := "server";
     payload := {| action := "open"; connections := Some cs; bePolite := polite;
                   sdp := None; ice := JUndefined |} |}.

(** What the signaling channel hands to the addressee of
    [sendTo(peerId, payload)]: the payload as it was sent (lines 128, 137,
    189), under the sender's id (the [from] of line 44). *)
Definition delivered (sender : string) (m : OutMsg) : Message :=
  {| from := sender;
     payload :=
       match m with
       | OutSdp d => {| action := "sdp"; connections := None; bePolite := JUndefined;
                        sdp := d; ice := JUndefined |}
       | OutIce c => {| action := "ice"; connections := None; bePolite := JUndefined;
                        sdp := None; ice := c |}
       end |}.

(** bob's manager, with a polite session for alice at location 0 on
    connection 0. *)
Definition bob_alice : World :=
  (addPeer (engine_ok "stable") "alice" "robot" (JBool true)
     (constructor "bob" "robot" with_channels)).2.

Definition alice_session (polite : JsVal) : Peer :=
  {| peerId := "alice"; peerType := "robot"; polite := polite;
     rtcPeerConnection := 0; dataChannel := Some 1;
     makingOffer := false; ignoreOffer := false;
     isSettingRemoteAnswerPending := false |}.

(** * Properties *)

(** ** Running the monad symbolically *)

Ltac munfold :=
  unfold signalingMessageHandler, signalingDisconnectHandler, addPeer,
    updateSessionDescription, updateIceCandidate, removePeer, remove,
    negotiationneeded, icecandidate, iceconnectionstatechange,
    onnegotiationneeded, onicecandidate, oniceconnectionstatechange,
    updateNegotiationLogic, offerCollision,
    signalingState, localDescription, iceConnectionState,
    new_RTCPeerConnection, createDataChannel,
    setLocalDescription, setRemoteDescription, createAnswer, createOffer,
    addIceCandidate, engine_call, outcome, log_verbose, console_error, sendTo,
    defined, on_conn, assign_ignoreOffer, assign, prop, emit, modify, get,
    try_catch, try_finally, spawn, bind, ret, throw.

Ltac mred :=
  repeat (progress
    (munfold; cbv beta iota zeta;
     cbn [heap trace peers wired verbose options ourPeerId ourPeerType polluted
          with_heap with_peers with_wired record pollute fst snd
          from payload action connections bePolite sdp ice
          fmap option_fmap option_map default from_option id negb andb orb
          ref_truthy forEach
          peerId peerType polite rtcPeerConnection dataChannel makingOffer
          ignoreOffer isSettingRemoteAnswerPending
          set_ignoreOffer set_makingOffer set_dataChannel];
     rewrite ?lookup_alter_eq)).

(** Reduce, using the session object [H : heap w !! l = Some p]. *)
Ltac mrun H := repeat (progress (mred; rewrite ?H)).

(** Case analysis on whatever the engine or a flag decides next. *)
Ltac mcase H :=
  match goal with
  | |- context [match eng_setLocalDescription ?E ?h ?c ?d with _ => _ end] =>
      destruct (eng_setLocalDescription E h c d) eqn:?
  | |- context [match eng_setRemoteDescription ?E ?h ?c ?d with _ => _ end] =>
      destruct (eng_setRemoteDescription E h c d) eqn:?
  | |- context [match eng_createAnswer ?E ?h ?c with _ => _ end] =>
      destruct (eng_createAnswer E h c) eqn:?
  | |- context [match eng_createOffer ?E ?h ?c with _ => _ end] =>
      destruct (eng_createOffer E h c) eqn:?
  | |- context [match eng_addIceCandidate ?E ?h ?c ?d with _ => _ end] =>
      destruct (eng_addIceCandidate E h c d) eqn:?
  | |- context [if verbose ?w then _ else _] => destruct (verbose w) eqn:?
  end; mrun H.

(** ** updateSessionDescription on a session *)

Lemma offerCollision_session (E : Engine) (w : World) (l : loc) (p : Peer)
    (d : SessionDescription) :
  heap w !! l = Some p ->
  offerCollision E (RefPeer l) (Some (rtcPeerConnection p)) d w
  = (Normal (collides E w p d), w).
Proof.
  intros H. unfold collides. mrun H.
  destruct (String.eqb (type d) "offer"); mrun H; [|done].
  destruct (makingOffer p); mrun H; done.
Qed.

(** Whatever the engine answers afterwards, line 165 has stored the flag. *)
Lemma updateSessionDescription_stores_flag (E : Engine) (w : World) (l : loc)
    (p : Peer) (d : SessionDescription) :
  heap w !! l = Some p ->
  heap (updateSessionDescription E (RefPeer l) (Some d) w).2 !! l
  = Some (set_ignoreOffer (negb (truthy (polite p)) && collides E w p d) p).
Proof.
  intros H. unfold collides. mrun H.
  destruct (String.eqb (type d) "offer") eqn:Ht; mrun H.
  - destruct (makingOffer p) eqn:Hm; mrun H.
    + destruct (truthy (polite p)); mrun H; repeat mcase H;
        cbn; by rewrite ?lookup_alter_eq, ?H.
    + destruct (truthy (polite p));
        destruct (String.eqb _ "stable"); mrun H; repeat mcase H;
        cbn; by rewrite ?lookup_alter_eq, ?H.
  - rewrite andb_false_r. mrun H. repeat mcase H;
      cbn; by rewrite ?lookup_alter_eq, ?H.
Qed.

(** C1. For a session receiving a remote description: the collision flag of
    line 164 is true exactly when the description is an offer and either
    makingOffer is set or the signaling state is not "stable"; ignoreOffer is
    assigned (not polite) && offerCollision; and when that is true the
    handler returns at once: the only change is the flag (and, when verbose,
    one console.log line), so no description is set, no answer is sent and no
    error is reported. *)
Theorem updateSessionDescription_ignores_collision (E : Engine) (w : World)
    (l : loc) (p : Peer) (d : SessionDescription) :
  heap w !! l = Some p ->
  let r := updateSessionDescription E (RefPeer l) (Some d) w in
  offerCollision E (RefPeer l) (Some (rtcPeerConnection p)) d w
    = (Normal (collides E w p d), w)
  /\ (collides E w p d = true <->
      type d = "offer"
      /\ (makingOffer p = true
          \/ eng_signalingState E (trace w) (rtcPeerConnection p) <> "stable"))
  /\ ignoreOffer <$> heap r.2 !! l
     = Some (negb (truthy (polite p)) && collides E w p d)
  /\ (negb (truthy (polite p)) && collides E w p d = true ->
      r = (Normal tt,
           (if verbose w
            then record (ConsoleLog "Peer offer was ignore because we are impolite")
            else id)
             (with_heap (alter (set_ignoreOffer true) l) w))
      /\ trace r.2
         = trace w ++ (if verbose w
                       then [ConsoleLog "Peer offer was ignore because we are impolite"]
                       else [])).
Proof.
  intros H r. split; [by apply offerCollision_session|]. split; [|split].
  - unfold collides. rewrite andb_true_iff, orb_true_iff, negb_true_iff.
    rewrite String.eqb_eq, String.eqb_neq. done.
  - subst r. by rewrite (updateSessionDescription_stores_flag E w l p d H).
  - intros Hi. apply andb_true_iff in Hi as [Hp Hc].
    assert (r = (Normal tt,
           (if verbose w
            then record (ConsoleLog "Peer offer was ignore because we are impolite")
            else id)
             (with_heap (alter (set_ignoreOffer true) l) w))) as ->.
    { subst r. unfold collides in Hc. apply andb_true_iff in Hc as [Ht Hc].
      mrun H. rewrite Ht. mrun H.
      destruct (makingOffer p) eqn:Hm; mrun H.
      - rewrite Hp. mrun H. by destruct (verbose w).
      - cbn in Hc. rewrite Hc, Hp. mrun H. by destruct (verbose w). }
    split; [done|]. destruct (verbose w); cbn; [done|by rewrite app_nil_r].
Qed.

(** C10. The flag is recomputed by every handled description: when
    (not polite) && offerCollision is false (any description that is not an
    offer, any offer that meets no collision, any description on a polite
    session) ignoreOffer is false afterwards, whatever the engine answers, and
    a candidate that then fails to apply is logged again. *)
Theorem updateSessionDescription_resets_ignoreOffer (E : Engine) (w : World)
    (l : loc) (p : Peer) (d : SessionDescription) :
  heap w !! l = Some p ->
  negb (truthy (polite p)) && collides E w p d = false ->
  let w' := (updateSessionDescription E (RefPeer l) (Some d) w).2 in
  ignoreOffer <$> heap w' !! l = Some false
  /\ forall (candidate : JsVal) (e : Error),
       truthy candidate = true ->
       eng_addIceCandidate E (trace w') (rtcPeerConnection p) candidate = Some e ->
       updateIceCandidate E (RefPeer l) candidate w'
       = (Normal tt,
          record (ConsoleLogError e)
            (record (AddIceCandidate (rtcPeerConnection p) candidate) w')).
Proof.
  intros H Hi w'.
  pose proof (updateSessionDescription_stores_flag E w l p d H) as Hw.
  fold w' in Hw. rewrite Hi in Hw. split; [by rewrite Hw|].
  intros candidate e Hc He. mrun Hw. rewrite Hc. mrun Hw. rewrite He. by mrun Hw.
Qed.

(** The cases C10 names: a description that is not an offer, and an offer
    that meets no collision. *)
Lemma collides_not_offer (E : Engine) (w : World) (p : Peer) (d : SessionDescription) :
  type d <> "offer" -> collides E w p d = false.
Proof. intros Ht. unfold collides. apply String.eqb_neq in Ht. by rewrite Ht. Qed.

Lemma collides_stable (E : Engine) (w : World) (p : Peer) (d : SessionDescription) :
  makingOffer p = false ->
  eng_signalingState E (trace w) (rtcPeerConnection p) = "stable" ->
  collides E w p d = false.
Proof. intros Hm Hs. unfold collides. rewrite Hm, Hs. cbn. apply andb_false_r. Qed.

Lemma updateSessionDescription_ignores_collision_witness :
  let E := engine_ok "have-local-offer" in
  let w := alice_bob (JBool false) in
  let r := updateSessionDescription E (RefPeer 0) (Some (offer_from "bob")) w in
  heap w !! 0 = Some (bob_session (JBool false))
  /\ ignoreOffer <$> heap r.2 !! 0 = Some true
  /\ r.1 = Normal tt
  /\ trace r.2 = trace w.
Proof.
  intros E w r.
  assert (heap w !! 0 = Some (bob_session (JBool false))) as H by (vm_compute; reflexivity).
  destruct (updateSessionDescription_ignores_collision E w 0 _ (offer_from "bob") H)
    as (_ & _ & Hflag & Hret).
  destruct (Hret eq_refl) as [Hr Ht].
  split; [exact H|]. split; [exact Hflag|]. split.
  - subst r. rewrite Hr. reflexivity.
  - subst r. rewrite Ht. apply app_nil_r.
Defined.

Lemma updateSessionDescription_resets_ignoreOffer_witness :
  let E := engine_no_candidate in
  let w := alice_bob (JBool false) in
  let w' := (updateSessionDescription E (RefPeer 0) (Some (answer_from "bob")) w).2 in
  ignoreOffer <$> heap w' !! 0 = Some false
  /\ updateIceCandidate E (RefPeer 0) (JObj "candidate:1") w'
     = (Normal tt,
        record (ConsoleLogError (EngineError "addIceCandidate failed"))
          (record (AddIceCandidate 0 (JObj "candidate:1")) w')).
Proof.
  intros E w w'.
  assert (heap w !! 0 = Some (bob_session (JBool false))) as H by (vm_compute; reflexivity).
  destruct (updateSessionDescription_resets_ignoreOffer E w 0 _ (answer_from "bob") H eq_refl)
    as [Hflag Hlog].
  split; [exact Hflag|].
  exact (Hlog (JObj "candidate:1") (EngineError "addIceCandidate failed") eq_refl eq_refl).
Defined.

(** ** updateIceCandidate on a session *)

Lemma updateIceCandidate_falsy (E : Engine) (w : World) (l : loc) (p : Peer)
    (candidate : JsVal) :
  heap w !! l = Some p -> truthy candidate = false ->
  updateIceCandidate E (RefPeer l) candidate w = (Normal tt, w).
Proof. intros H Hc. mrun H. rewrite Hc. by mrun H. Qed.

Lemma dispatch_ice_session (E : Engine) (w : World) (l : loc) (m : Message) :
  action (payload m) = "ice" -> peers w !! from m = Some l ->
  signalingMessageHandler E m w
  = spawn (updateIceCandidate E (RefPeer l) (ice (payload m))) w.
Proof.
  destruct m as [sender [a cs bp d i]]. cbn [payload action from ice].
  intros -> Hl. unfold signalingMessageHandler.
  cbn [payload action from ice sdp String.eqb Ascii.eqb Bool.eqb].
  unfold bind at 1, get. cbv beta iota. unfold peers_get. by rewrite Hl.
Qed.

(** C5. Delivering the end-of-candidates terminator (a null, absent or empty
    candidate) to a session neither raises nor calls the engine's
    addIceCandidate: the handler returns normally and nothing at all is
    recorded, both called directly and through the "ice" dispatch. *)
Theorem updateIceCandidate_skips_terminator (E : Engine) (w : World) (l : loc)
    (p : Peer) (candidate : JsVal) :
  heap w !! l = Some p ->
  candidate = JNull \/ candidate = JUndefined \/ candidate = JStr "" ->
  updateIceCandidate E (RefPeer l) candidate w = (Normal tt, w)
  /\ forall m : Message,
       action (payload m) = "ice" -> ice (payload m) = candidate ->
       peers w !! from m = Some l ->
       signalingMessageHandler E m w = (Normal tt, w).
Proof.
  intros H Hc.
  assert (truthy candidate = false) as Hf by (by destruct Hc as [->|[->| ->]]).
  split; [by eapply updateIceCandidate_falsy|].
  intros m Ha Hi Hl. rewrite (dispatch_ice_session E w l m Ha Hl), Hi.
  unfold spawn. by rewrite (updateIceCandidate_falsy E w l p candidate H Hf).
Qed.

Lemma updateIceCandidate_skips_terminator_witness :
  let w := alice_bob (JBool true) in
  updateIceCandidate (engine_no_candidate) (RefPeer 0) JNull w = (Normal tt, w)
  /\ signalingMessageHandler (engine_no_candidate) (message "bob" "ice" None JNull) w
     = (Normal tt, w).
Proof.
  intros w.
  assert (heap w !! 0 = Some (bob_session (JBool true))) as H by (vm_compute; reflexivity).
  destruct (updateIceCandidate_skips_terminator engine_no_candidate w 0 _ JNull H
              (or_introl eq_refl)) as [Hd Hm].
  split; [exact Hd|].
  apply Hm; [reflexivity|reflexivity|vm_compute; reflexivity].
Defined.

(** C6. When applying a non-null candidate to a session fails, the error is
    logged unless the session's ignoreOffer flag is set, in which case it is
    dropped; either way the handler returns normally and the session map and
    the session objects are as before. *)
Theorem updateIceCandidate_failure (E : Engine) (w : World) (l : loc)
    (p : Peer) (candidate : JsVal) (e : Error) :
  heap w !! l = Some p ->
  truthy candidate = true ->
  eng_addIceCandidate E (trace w) (rtcPeerConnection p) candidate = Some e ->
  let r := updateIceCandidate E (RefPeer l) candidate w in
  r.1 = Normal tt
  /\ trace r.2
     = trace w ++ AddIceCandidate (rtcPeerConnection p) candidate
                  :: (if ignoreOffer p then [] else [ConsoleLogError e])
  /\ peers r.2 = peers w
  /\ heap r.2 = heap w
  /\ wired r.2 = wired w.
Proof.
  intros H Hc He r. subst r. mrun H. rewrite Hc. mrun H. rewrite He. mrun H.
  destruct (ignoreOffer p); mrun H; repeat split; try done.
  by rewrite <- app_assoc.
Qed.

Lemma updateIceCandidate_failure_witness :
  let E := engine_no_candidate in
  let w := alice_bob (JBool false) in
  let r := updateIceCandidate E (RefPeer 0) (JObj "candidate:1") w in
  r.1 = Normal tt
  /\ trace r.2
     = trace w ++ [AddIceCandidate 0 (JObj "candidate:1");
                   ConsoleLogError (EngineError "addIceCandidate failed")]
  /\ peers r.2 = peers w.
Proof.
  intros E w r.
  assert (heap w !! 0 = Some (bob_session (JBool false))) as H by (vm_compute; reflexivity).
  destruct (updateIceCandidate_failure E w 0 _ (JObj "candidate:1")
              (EngineError "addIceCandidate failed") H eq_refl eq_refl)
    as (Hr & Ht & Hp & _).
  split; [exact Hr|]. split; [exact Ht|exact Hp].
Defined.

(** ** The dispatch entry point *)

(** C9. An "open" message whose payload has no connections array makes the
    handler throw a TypeError (the forEach of line 48 on undefined), in any
    state and whatever else the payload holds; the message is not ignored. *)
Theorem signalingMessageHandler_open_without_connections (E : Engine) (w : World)
    (sender : string) (polite : JsVal) (description : option SessionDescription)
    (candidate : JsVal) :
  signalingMessageHandler E
    {| from := sender;
       payload := {| action := "open"; connections := None; bePolite := polite;
                     sdp := description; ice := candidate |} |} w
  = (Throw (TypeError "Cannot read properties of undefined (reading 'forEach')"), w).
Proof. reflexivity. Qed.

(** ** The invariant *)

Lemma wf_lookup (w : World) (k : string) (l : loc) :
  wf w = true -> peers w !! k = Some l ->
  exists p, heap w !! l = Some p /\ peerId p = k.
Proof.
  unfold wf. rewrite forallb_forall. intros Hw Hl.
  specialize (Hw (k, l)). cbn in Hw.
  destruct (heap w !! l) as [p|].
  - exists p. split; [done|]. apply String.eqb_eq, Hw.
    apply list_elem_of_In. by apply elem_of_map_to_list.
  - exfalso. assert (false = true); [|done]. apply Hw.
    apply list_elem_of_In. by apply elem_of_map_to_list.
Qed.

Lemma wf_intro (w : World) :
  (forall k l, peers w !! k = Some l -> exists p, heap w !! l = Some p /\ peerId p = k) ->
  wf w = true.
Proof.
  intros Hw. unfold wf. apply forallb_forall. intros [k l] Hin.
  apply list_elem_of_In, elem_of_map_to_list in Hin.
  destruct (Hw k l Hin) as (p & Hp & Hk). cbn. rewrite Hp.
  by apply String.eqb_eq.
Qed.

Lemma wf_constructor (me kind : string) (o : Options) : wf (constructor me kind o) = true.
Proof. reflexivity. Qed.

(** ** removePeer *)

Lemma removePeer_undefined (w : World) :
  removePeer RefUndefined w = (Normal tt, w).
Proof. reflexivity. Qed.

Lemma removePeer_builtin (w : World) (k : string) :
  removePeer (RefBuiltin k) w
  = (Throw (TypeError "Cannot read properties of undefined"), w).
Proof. reflexivity. Qed.

Lemma removePeer_session (w : World) (l : loc) (p : Peer) :
  heap w !! l = Some p ->
  let r := removePeer (RefPeer l) w in
  r.1 = Normal tt
  /\ peers r.2 = delete (peerId p) (peers w)
  /\ heap r.2 = heap w
  /\ wired r.2 = wired w
  /\ verbose r.2 = verbose w
  /\ options r.2 = options w
  /\ trace r.2
     = trace w ++ closing p
       ++ (if verbose w
           then [ConsoleLog ("Connection with " +:+ peerId p +:+ " has been removed")]
           else []).
Proof.
  intros H r. subst r. unfold closing. mrun H.
  destruct (dataChannel p) as [ch|]; mrun H;
    destruct (verbose w) eqn:Hv; mrun H; repeat split; try done;
    rewrite <- ?app_assoc; try done.
  all: by rewrite ?app_nil_r.
Qed.

(** Handing the same session object to removePeer a second time releases
    its channel and connection a second time: the guard of line 219 only
    tests that an object was passed. *)
Lemma removePeer_same_object_twice (w : World) (l : loc) (p : Peer) :
  heap w !! l = Some p ->
  let w1 := (removePeer (RefPeer l) w).2 in
  let r := removePeer (RefPeer l) w1 in
  r.1 = Normal tt /\ since w1 r.2
  = closing p ++ (if verbose w
                  then [ConsoleLog ("Connection with " +:+ peerId p +:+ " has been removed")]
                  else []).
Proof.
  intros H w1 r.
  destruct (removePeer_session w l p H) as (_ & _ & Hh & _ & Hv & _).
  fold w1 in Hh, Hv.
  assert (heap w1 !! l = Some p) as H1 by (by rewrite Hh).
  destruct (removePeer_session w1 l p H1) as (Hr & _ & _ & _ & _ & _ & Ht).
  fold r in Hr, Ht. split; [done|]. unfold since. rewrite Ht, Hv.
  by rewrite drop_app_length.
Qed.

(** ** Removing by peerId: [peer.remove()] and the "close" dispatch *)

Lemma dispatch_close (E : Engine) (w : World) (m : Message) :
  action (payload m) = "close" ->
  signalingMessageHandler E m w = remove (from m) w.
Proof.
  destruct m as [sender [a cs bp d i]]. cbn [payload action from].
  intros ->. reflexivity.
Qed.

Lemma remove_absent (w : World) (k : string) :
  peers w !! k = None -> builtin k = false ->
  remove k w = (Normal tt, w).
Proof.
  intros Hk Hi. unfold remove, bind, get, peers_get. cbv beta iota.
  rewrite Hk, Hi. by destruct (inherits_ignoreOffer w k).
Qed.

Lemma remove_session (w : World) (k : string) (l : loc) :
  peers w !! k = Some l ->
  remove k w = removePeer (RefPeer l) w.
Proof.
  intros Hk. unfold remove, bind, get, peers_get. cbv beta iota. by rewrite Hk.
Qed.

(** On a peerId that names no member of Object.prototype, removing twice is
    removing once: the second call finds nothing and changes nothing. *)
Lemma remove_twice (w : World) (k : string) (l : loc) :
  wf w = true -> peers w !! k = Some l -> builtin k = false ->
  let w1 := (remove k w).2 in
  (remove k w).1 = Normal tt
  /\ peers w1 !! k = None
  /\ remove k w1 = (Normal tt, w1).
Proof.
  intros Hw Hk Hi w1. destruct (wf_lookup w k l Hw Hk) as (p & Hp & Hid).
  subst w1. rewrite (remove_session w k l Hk).
  destruct (removePeer_session w l p Hp) as (Hr & Hps & _).
  assert (peers (removePeer (RefPeer l) w).2 !! k = None) as Hnone.
  { rewrite Hps, Hid. apply lookup_delete_eq. }
  split; [done|]. split; [done|]. by apply remove_absent.
Qed.

(** C7, where the code departs from it. For a peerId that names a member of
    Object.prototype and has no session, [this.peers[peerId]] is that
    built-in member, not undefined: it passes the guard of line 219 and
    [peer.rtcPeerConnection.close()] throws a TypeError, from [remove] and
    from the "close" dispatch alike, instead of being a no-op. *)
Theorem remove_inherited_name_throws (E : Engine) (w : World) (k : string) :
  peers w !! k = None -> builtin k = true ->
  remove k w = (Throw (TypeError "Cannot read properties of undefined"), w)
  /\ forall m : Message,
       action (payload m) = "close" -> from m = k ->
       signalingMessageHandler E m w
       = (Throw (TypeError "Cannot read properties of undefined"), w).
Proof.
  intros Hk Hi.
  assert (remove k w = (Throw (TypeError "Cannot read properties of undefined"), w)) as Hr.
  { unfold remove, bind, get, peers_get. cbv beta iota. by rewrite Hk, Hi. }
  split; [done|]. intros m Ha <-. by rewrite dispatch_close.
Qed.

Lemma remove_inherited_name_throws_witness :
  remove "constructor" alice
  = (Throw (TypeError "Cannot read properties of undefined"), alice)
  /\ signalingMessageHandler (engine_ok "stable")
       (message "constructor" "close" None JUndefined) alice
     = (Throw (TypeError "Cannot read properties of undefined"), alice).
Proof.
  destruct (remove_inherited_name_throws (engine_ok "stable") alice "constructor"
              eq_refl eq_refl) as [Hr Hm].
  split; [exact Hr|]. apply Hm; reflexivity.
Defined.

(** ** Messages from a sender without a session *)

Lemma dispatch_sdp_unknown_sender (E : Engine) (w : World) (m : Message) :
  action (payload m) = "sdp" -> verbose w = false ->
  peers_get w (from m) = RefUndefined ->
  signalingMessageHandler E m w
  = (Normal tt, record (ConsoleError (TypeError "Cannot read properties of undefined")) w).
Proof.
  destruct m as [sender [a cs bp d i]]. cbn [payload action from].
  intros -> Hv Hu. unfold signalingMessageHandler.
  cbn [payload action from ice sdp String.eqb Ascii.eqb Bool.eqb].
  unfold bind at 1, get. cbv beta iota. rewrite Hv, Hu. reflexivity.
Qed.

(** C3, where the code departs from it. An "ice" message from a sender
    without a session: updateIceCandidate reads [peer.rtcPeerConnection]
    before its try block (line 203), so its promise rejects with a TypeError
    that nothing handles; the "close" path is guarded (line 219) and the
    "sdp" path reads the same property inside its try (line 162). *)
Theorem dispatch_ice_unknown_sender (E : Engine) (w : World) (m : Message) :
  action (payload m) = "ice" ->
  peers_get w (from m) = RefUndefined ->
  signalingMessageHandler E m w
  = (Normal tt,
     record (UnhandledRejection (TypeError "Cannot read properties of undefined")) w).
Proof.
  destruct m as [sender [a cs bp d i]]. cbn [payload action from].
  intros -> Hu. unfold signalingMessageHandler.
  cbn [payload action from ice sdp String.eqb Ascii.eqb Bool.eqb].
  unfold bind at 1, get. cbv beta iota. rewrite Hu. reflexivity.
Qed.

Lemma dispatch_ice_unknown_sender_witness :
  signalingMessageHandler (engine_ok "stable") (message "carol" "ice" None JNull)
    (alice_bob (JBool false))
  = (Normal tt,
     record (UnhandledRejection (TypeError "Cannot read properties of undefined"))
       (alice_bob (JBool false))).
Proof.
  apply dispatch_ice_unknown_sender; vm_compute; reflexivity.
Defined.

(** ** signalingDisconnectHandler *)

Lemma removePeer_wf (w : World) (l : loc) (p : Peer) :
  wf w = true -> heap w !! l = Some p ->
  wf (removePeer (RefPeer l) w).2 = true.
Proof.
  intros Hw Hp. destruct (removePeer_session w l p Hp) as (_ & Hps & Hh & _).
  apply wf_intro. intros k l'. rewrite Hps, Hh. intros Hk.
  apply lookup_delete_Some in Hk as [_ Hk]. by apply wf_lookup.
Qed.

Lemma disconnect_body_session (w : World) (k : string) (l : loc) (p : Peer) :
  peers w !! k = Some l -> heap w !! l = Some p -> peerId p = k ->
  signalingDisconnectHandler_body k w = removePeer (RefPeer l) w.
Proof.
  intros Hk Hp Hid. unfold signalingDisconnectHandler_body.
  unfold bind at 1, get. cbv beta iota. rewrite Hk.
  unfold bind at 1, prop. rewrite Hp. cbn [fmap option_fmap option_map default from_option id].
  rewrite Hid. by apply remove_session.
Qed.

Lemma forEach_cons {A} (f : A -> M unit) (x : A) (xs : list A) (w w1 : World) :
  f x w = (Normal tt, w1) -> forEach (x :: xs) f w = forEach xs f w1.
Proof. intros H. cbn [forEach]. unfold bind. by rewrite H. Qed.

Lemma forEach_app {A} (f : A -> M unit) (xs ys : list A) :
  forall w w1 : World,
    forEach xs f w = (Normal tt, w1) -> forEach (xs ++ ys) f w = forEach ys f w1.
Proof.
  induction xs as [|x xs IH]; intros w w1 H.
  - cbn in H. by injection H as <-.
  - cbn [forEach app] in *. unfold bind in *.
    destruct (f x w) as [[[]|e] w2]; [by apply IH|done].
Qed.

(** The loop over distinct own keys: it never throws, deletes exactly the
    listed keys, leaves the session objects alone and has closed every
    listed session. *)
Lemma disconnect_loop (ks : list string) :
  forall w : World, wf w = true -> NoDup ks ->
    (forall k, k ∈ ks -> is_Some (peers w !! k)) ->
    let r := forEach ks signalingDisconnectHandler_body w in
    r.1 = Normal tt
    /\ heap r.2 = heap w
    /\ polluted r.2 = polluted w
    /\ (forall k, peers r.2 !! k = if decide (k ∈ ks) then None else peers w !! k)
    /\ exists evs, trace r.2 = trace w ++ evs
         /\ forall k l p, k ∈ ks -> peers w !! k = Some l -> heap w !! l = Some p ->
              forall e, e ∈ closing p -> e ∈ evs.
Proof.
  induction ks as [|k ks IH]; intros w Hw Hnd Hown r.
  - subst r. cbn. repeat split; try done.
    exists []. split; [by rewrite app_nil_r|]. intros k l p Hk. by apply elem_of_nil in Hk.
  - apply NoDup_cons in Hnd as [Hnin Hnd].
    destruct (Hown k (list_elem_of_here k ks)) as [l Hk].
    destruct (wf_lookup w k l Hw Hk) as (p & Hp & Hid).
    pose proof (disconnect_body_session w k l p Hk Hp Hid) as Hb.
    destruct (removePeer_session w l p Hp) as (Hr & Hps & Hh & _ & _ & _ & Ht).
    assert (polluted (removePeer (RefPeer l) w).2 = polluted w) as Hpol.
    { clear -Hp. mrun Hp. destruct (dataChannel p); mrun Hp; by destruct (verbose w). }
    pose proof (removePeer_wf w l p Hw Hp) as Hw1.
    destruct (removePeer (RefPeer l) w) as [c w1] eqn:Hrm.
    cbn [fst snd] in *. subst c.
    subst r. rewrite (forEach_cons _ k ks w w1 Hb).
    assert (forall k', k' ∈ ks -> is_Some (peers w1 !! k')) as Hown1.
    { intros k' Hin. rewrite Hps, Hid. rewrite lookup_delete_ne by (by intros ->).
      apply Hown. by apply list_elem_of_further. }
    destruct (IH w1 Hw1 Hnd Hown1) as (Hr1 & Hh1 & Hpol1 & Hps1 & evs & Ht1 & Hev).
    split; [done|]. split; [by rewrite Hh1|]. split; [by rewrite Hpol1|]. split.
    + intros k'. rewrite Hps1, Hps, Hid.
      destruct (decide (k' = k)) as [->|Hne].
      * rewrite lookup_delete_eq.
        rewrite (decide_True (P := k ∈ k :: ks)) by apply list_elem_of_here.
        by destruct (decide (k ∈ ks)).
      * rewrite lookup_delete_ne by done.
        destruct (decide (k' ∈ ks)) as [Hin|Hnin'].
        -- by rewrite decide_True by (by apply list_elem_of_further).
        -- rewrite decide_False; [done|].
           intros [?|?]%elem_of_cons; done.
    + eexists. split; [rewrite Ht1, Ht, <- !app_assoc; reflexivity|].
      intros k' l' p' Hin Hk' Hp' e He.
      destruct (decide (k' = k)) as [->|Hne].
      * rewrite Hk in Hk'. injection Hk' as <-. rewrite Hp in Hp'. injection Hp' as <-.
        apply elem_of_app. by left.
      * apply elem_of_cons in Hin as [?|Hin]; [done|].
        apply elem_of_app. right. apply elem_of_app. right.
        apply (Hev k' l' p' Hin); [|by rewrite Hh|done].
        rewrite Hps, Hid. by rewrite lookup_delete_ne.
Qed.

(** The own keys of [this.peers], visited in the runtime's order. *)
Lemma disconnect_own_keys (K : KeyOrder) (w : World) :
  wf w = true ->
  let r := forEach (ownKeys K (peers w)) signalingDisconnectHandler_body w in
  r.1 = Normal tt
  /\ peers r.2 = ∅
  /\ polluted r.2 = polluted w
  /\ forall k l p, peers w !! k = Some l -> heap w !! l = Some p ->
       CloseConnection (rtcPeerConnection p) ∈ since w r.2
       /\ forall ch, dataChannel p = Some ch -> CloseDataChannel ch ∈ since w r.2.
Proof.
  intros Hw r. subst r.
  destruct (disconnect_loop (ownKeys K (peers w)) w Hw (ownKeys_NoDup K _))
    as (Hr & _ & Hpol & Hps & evs & Ht & Hev).
  { intros k. apply ownKeys_spec. }
  split; [done|]. split; [|split; [done|]].
  - apply map_eq. intros k. rewrite Hps, lookup_empty.
    destruct (decide (k ∈ ownKeys K (peers w))) as [|Hnin]; [done|].
    rewrite ownKeys_spec in Hnin. by apply eq_None_not_Some.
  - intros k l p Hk Hp.
    assert (k ∈ ownKeys K (peers w)) as Hin by (apply ownKeys_spec; eauto).
    unfold since. rewrite Ht, drop_app_length. split.
    + apply (Hev k l p Hin Hk Hp). unfold closing.
      destruct (dataChannel p); rewrite !elem_of_cons; auto.
    + intros ch Hch. apply (Hev k l p Hin Hk Hp). unfold closing.
      rewrite Hch, !elem_of_cons. auto.
Qed.

(** While Object.prototype is as the runtime made it, the disconnect handler
    does what C8 says, in any state that satisfies the invariant: it does not
    throw, every session has had its connection and its data channel closed,
    and [this.peers] is empty afterwards. *)
Lemma signalingDisconnectHandler_intact (K : KeyOrder) (w : World) :
  wf w = true -> polluted w = false ->
  let r := signalingDisconnectHandler K w in
  r.1 = Normal tt
  /\ peers r.2 = ∅
  /\ forall k l p, peers w !! k = Some l -> heap w !! l = Some p ->
       CloseConnection (rtcPeerConnection p) ∈ since w r.2
       /\ forall ch, dataChannel p = Some ch -> CloseDataChannel ch ∈ since w r.2.
Proof.
  intros Hw Hpol r. subst r.
  assert (signalingDisconnectHandler K w
          = forEach (ownKeys K (peers w)) signalingDisconnectHandler_body w) as ->.
  { unfold signalingDisconnectHandler, bind at 1, get, forIn_keys. cbv beta iota.
    rewrite Hpol. cbn [andb]. by rewrite app_nil_r. }
  destruct (disconnect_own_keys K w Hw) as (Hr & He & _ & Hc). done.
Qed.

(** C8, where the code departs from it. Once Object.prototype.ignoreOffer
    exists, which is what line 165 leaves behind when an "sdp" message names
    "__proto__" as its sender, the for-in loop of the disconnect handler also
    visits the inherited key "ignoreOffer": the sessions are closed and removed
    first, and then [this.peers["ignoreOffer"].remove()] throws a TypeError
    out of the handler. *)
Theorem signalingDisconnectHandler_polluted (K : KeyOrder) (w : World) :
  wf w = true -> polluted w = true -> peers w !! "ignoreOffer" = None ->
  let r := signalingDisconnectHandler K w in
  r.1 = Throw (TypeError "this.peers[peerId].remove is not a function")
  /\ peers r.2 = ∅.
Proof.
  intros Hw Hpol Hown r. subst r.
  destruct (disconnect_own_keys K w Hw) as (Hr & He & Hpol1 & _).
  destruct (forEach (ownKeys K (peers w)) signalingDisconnectHandler_body w)
    as [c w1] eqn:Hloop.
  cbn [fst snd] in *. subst c.
  assert (signalingDisconnectHandler K w
          = forEach ["ignoreOffer"] signalingDisconnectHandler_body w1) as ->.
  { unfold signalingDisconnectHandler, bind at 1, get, forIn_keys. cbv beta iota.
    rewrite Hpol, Hown. cbn [andb negb].
    rewrite bool_decide_eq_false_2 by (by intros [? ?]).
    cbn [negb]. by apply forEach_app. }
  cbn [forEach]. unfold signalingDisconnectHandler_body, bind, get.
  rewrite He, lookup_empty.
  unfold inherits_ignoreOffer. rewrite Hpol1, Hpol. cbn. by rewrite He.
Qed.

(** How the state of the previous theorem is reached: an "sdp" message from
    "__proto__" carrying anything but an offer. *)
Lemma sdp_from_proto_pollutes (E : Engine) (w : World) (m : Message)
    (d : SessionDescription) :
  action (payload m) = "sdp" -> from m = "__proto__" ->
  sdp (payload m) = Some d -> type d <> "offer" ->
  peers w !! "__proto__" = None ->
  let r := signalingMessageHandler E m w in
  r.1 = Normal tt /\ polluted r.2 = true /\ peers r.2 = peers w /\ heap r.2 = heap w.
Proof.
  destruct m as [sender [a cs bp sd i]]. cbn [payload action from sdp].
  intros Ha Hs Hsd Ht Hk. subst a sender sd. apply String.eqb_neq in Ht.
  assert (peers_get w "__proto__" = RefBuiltin "__proto__") as Hg.
  { unfold peers_get. by rewrite Hk. }
  unfold signalingMessageHandler.
  cbn [payload action from ice sdp String.eqb Ascii.eqb Bool.eqb].
  destruct (verbose w) eqn:Hv;
    repeat (progress (mred; rewrite ?Hv, ?Hg, ?Ht));
    change (("__proto__" =? "__proto__")%string) with true; mred; done.
Qed.

Lemma signalingDisconnectHandler_polluted_witness :
  let w1 := (signalingMessageHandler (engine_ok "stable")
               (message "__proto__" "sdp" (Some (answer_from "mallory")) JUndefined)
               alice_bob_carol).2 in
  let r := signalingDisconnectHandler mapOrder w1 in
  polluted alice_bob_carol = false
  /\ r.1 = Throw (TypeError "this.peers[peerId].remove is not a function")
  /\ peers r.2 = ∅.
Proof.
  intros w1 r. split; [reflexivity|].
  apply (signalingDisconnectHandler_polluted mapOrder w1); vm_compute; reflexivity.
Defined.

Lemma signalingDisconnectHandler_intact_example :
  let r := signalingDisconnectHandler mapOrder alice_bob_carol in
  r.1 = Normal tt
  /\ peers r.2 = ∅
  /\ CloseConnection 0 ∈ since alice_bob_carol r.2
  /\ CloseDataChannel 1 ∈ since alice_bob_carol r.2.
Proof.
  intros r.
  destruct (signalingDisconnectHandler_intact mapOrder alice_bob_carol eq_refl eq_refl)
    as (Hr & He & Hc).
  split; [exact Hr|]. split; [exact He|].
  destruct (Hc "bob" 0 (bob_session (JBool false))) as [H0 H1];
    [vm_compute; reflexivity|vm_compute; reflexivity|].
  split; [exact H0|]. apply H1. reflexivity.
Qed.

(** ** addPeer *)

Lemma addPeer_existing (E : Engine) (w : World) (k t : string) (pol : JsVal) :
  peers_in w k = true ->
  addPeer E k t pol w
  = (Normal tt,
     (if verbose w
      then record (ConsoleLog ("A peer connection with " +:+ k +:+ " already exists"))
      else id) w).
Proof.
  intros Hin. unfold addPeer. unfold bind at 1, get. cbv beta iota. rewrite Hin.
  mred. by destruct (verbose w).
Qed.

Lemma addPeer_new (E : Engine) (w : World) (k t : string) (pol : JsVal) :
  peers_in w k = false ->
  let r := addPeer E k t pol w in
  let l := fresh (dom (heap w)) in
  let c := length (trace w) in
  r.1 = Normal tt ->
  peers r.2 = <[k := l]> (peers w)
  /\ wired r.2 = <[c := l]> (wired w)
  /\ verbose r.2 = verbose w
  /\ exists p, heap r.2 = <[l := p]> (heap w)
       /\ peerId p = k /\ peerType p = t /\ polite p = pol
       /\ rtcPeerConnection p = c /\ makingOffer p = false /\ ignoreOffer p = false.
Proof.
  intros Hin r l c. subst r l c. mrun Hin.
  destruct (enableDataChannel (options w)); mrun Hin.
  - destruct (eng_createDataChannel E _ _ _); mrun Hin; [done|].
    destruct (dataChannelHandler (options w) k); mrun Hin;
      rewrite ?lookup_insert_eq; mrun Hin; intros _.
    all: repeat split; try done.
    all: eexists; split; [apply alter_insert_eq|]; done.
  - rewrite ?lookup_insert_eq. mrun Hin. intros _. repeat split; try done.
    eexists; split; [reflexivity|]; done.
Qed.

(** ** The negotiation-needed callback *)

Lemma negotiationneeded_impolite (E : Engine) (w : World) (c : conn) (l : loc)
    (p : Peer) (offer : SessionDescription) :
  wired w !! c = Some l -> heap w !! l = Some p ->
  truthy (polite p) = false ->
  eng_createOffer E (trace w) c = inr offer ->
  eng_setLocalDescription E (trace w ++ [CreateOffer c]) c offer = None ->
  let events := [CreateOffer c; SetLocalDescription c offer] ++ sending_offer w p in
  let r := negotiationneeded E c w in
  r.1 = Normal tt
  /\ since w r.2
     = events ++ [SendTo (peerId p) (OutSdp (eng_localDescription E (trace w ++ events) c))]
  /\ makingOffer <$> heap r.2 !! l = Some false
  /\ peers r.2 = peers w.
Proof.
  intros Hc H Hp Ho Hs events r. subst events r. unfold since, sending_offer.
  mrun H. rewrite Hc. mrun H. rewrite Hp. mrun H. rewrite Ho. mrun H.
  rewrite Hs. mrun H.
  destruct (verbose w); mrun H; cbn [app];
    rewrite <- ?app_assoc; cbn [app]; rewrite drop_app_length; done.
Qed.

(** A polite session makes no offer: the callback only clears makingOffer. *)
Lemma negotiationneeded_polite (E : Engine) (w : World) (c : conn) (l : loc) (p : Peer) :
  wired w !! c = Some l -> heap w !! l = Some p ->
  truthy (polite p) = true ->
  negotiationneeded E c w
  = (Normal tt, with_heap (alter (set_makingOffer false) l) w).
Proof.
  intros Hc H Hp. mrun H. rewrite Hc. mrun H. rewrite Hp. by mrun H.
Qed.

(** When createOffer rejects, the error is logged and nothing is sent. *)
Lemma negotiationneeded_createOffer_fails (E : Engine) (w : World) (c : conn)
    (l : loc) (p : Peer) (e : Error) :
  wired w !! c = Some l -> heap w !! l = Some p ->
  truthy (polite p) = false ->
  eng_createOffer E (trace w) c = inl e ->
  let r := negotiationneeded E c w in
  r.1 = Normal tt /\ since w r.2 = [CreateOffer c; ConsoleError e].
Proof.
  intros Hc H Hp Ho r. subst r. unfold since.
  mrun H. rewrite Hc. mrun H. rewrite Hp. mrun H. rewrite Ho. mrun H.
  rewrite <- ?app_assoc; cbn [app]; rewrite drop_app_length; done.
Qed.

(** C4 as stated fails: on an engine whose createOffer rejects, addPeer of a
    new impolite peer followed by negotiation-needed logs the error and
    sends nothing; and when the peerId already has a (polite) session,
    addPeer changes nothing and that session makes no offer. *)
Lemma addPeer_negotiationneeded_sends_nothing :
  (let w1 := (addPeer engine_no_offer "bob" "robot" (JBool false) alice).2 in
   let r := negotiationneeded engine_no_offer 0 w1 in
   peers w1 !! "bob" = Some 0
   /\ since w1 r.2 = [CreateOffer 0; ConsoleError (EngineError "createOffer failed")]
   /\ (forall m, SendTo "bob" m ∉ since w1 r.2))
  /\
  (let w0 := alice_bob (JBool true) in
   let w1 := (addPeer (engine_ok "stable") "bob" "robot" (JBool false) w0).2 in
   let r := negotiationneeded (engine_ok "stable") 0 w1 in
   trace w1 = trace w0 /\ since w1 r.2 = []).
Proof.
  split.
  - intros w1 r.
    assert (since w1 r.2 = [CreateOffer 0; ConsoleError (EngineError "createOffer failed")])
      as Hs by (vm_compute; reflexivity).
    split; [vm_compute; reflexivity|]. split; [exact Hs|].
    intros m. rewrite Hs, !elem_of_cons, elem_of_nil. intros [?|[?|?]]; done.
  - intros w0 w1 r. split; vm_compute; reflexivity.
Qed.

(** C4, amended. For a peerId that is not yet in [this.peers]: when
    addPeer(id, t, false) completes and, on the negotiation-needed event of
    the new connection, createOffer and setLocalDescription succeed, exactly
    one message is sent, an "sdp" message addressed to id carrying the
    connection's localDescription read after the offer was set.  When the
    peer was added with a truthy [polite], the event sends nothing and makes
    no call to the engine. *)
Theorem addPeer_negotiationneeded (E : Engine) (w : World) (k t : string)
    (pol : JsVal) (offer : SessionDescription) :
  peers_in w k = false ->
  let r1 := addPeer E k t pol w in
  let w1 := r1.2 in
  let c := length (trace w) in
  let r2 := negotiationneeded E c w1 in
  r1.1 = Normal tt ->
  (truthy pol = false ->
   eng_createOffer E (trace w1) c = inr offer ->
   eng_setLocalDescription E (trace w1 ++ [CreateOffer c]) c offer = None ->
   let events :=
     [CreateOffer c; SetLocalDescription c offer]
     ++ (if verbose w then [ConsoleLog ("Sending offer to " +:+ k)] else []) in
   r2.1 = Normal tt
   /\ since w1 r2.2
      = events ++ [SendTo k (OutSdp (eng_localDescription E (trace w1 ++ events) c))])
  /\ (truthy pol = true -> r2.1 = Normal tt /\ since w1 r2.2 = []).
Proof.
  intros Hin r1 w1 c r2 Hr1.
  destruct (addPeer_new E w k t pol Hin Hr1)
    as (_ & Hwd & Hv & p & Hh & Hid & _ & Hpol & Hpc & _).
  fold r1 w1 in Hwd, Hv, Hh. fold c in Hwd, Hpc.
  assert (wired w1 !! c = Some (fresh (dom (heap w)))) as Hc
    by (rewrite Hwd; apply lookup_insert_eq).
  assert (heap w1 !! fresh (dom (heap w)) = Some p) as Hp
    by (rewrite Hh; apply lookup_insert_eq).
  split.
  - intros Hf Ho Hs events.
    rewrite <- Hpol in Hf.
    destruct (negotiationneeded_impolite E w1 c _ p offer Hc Hp Hf Ho Hs)
      as (Hr2 & Hsince & _).
    fold r2 in Hr2, Hsince. unfold sending_offer in Hsince.
    rewrite Hv, Hid in Hsince. done.
  - intros Ht. rewrite <- Hpol in Ht. subst r2.
    rewrite (negotiationneeded_polite E w1 c _ p Hc Hp Ht).
    split; [done|]. unfold since. cbn [snd trace with_heap].
    by rewrite drop_all.
Qed.

Lemma addPeer_negotiationneeded_witness :
  let E := engine_ok "stable" in
  let w1 := alice_bob (JBool false) in
  let r2 := negotiationneeded E 0 w1 in
  peers_in alice "bob" = false
  /\ r2.1 = Normal tt
  /\ since w1 r2.2
     = [CreateOffer 0; SetLocalDescription 0 (offer_from "alice");
        SendTo "bob" (OutSdp (Some (offer_from "alice")))].
Proof.
  intros E w1 r2.
  destruct (addPeer_negotiationneeded E alice "bob" "robot" (JBool false)
              (offer_from "alice") eq_refl eq_refl) as [Himp _].
  destruct (Himp eq_refl eq_refl eq_refl) as [Hr Hs].
  split; [reflexivity|]. split; [exact Hr|exact Hs].
Defined.

(** ** The polite side of a collision *)




(** ** The invariant holds in every reachable state *)

Lemma wf_record (e : Event) (w : World) : wf (record e w) = wf w.
Proof. reflexivity. Qed.

Lemma wf_with_wired (f : gmap conn loc -> gmap conn loc) (w : World) :
  wf (with_wired f w) = wf w.
Proof. reflexivity. Qed.

Lemma wf_alter (set : Peer -> Peer) (l : loc) (w : World) :
  (forall p, peerId (set p) = peerId p) ->
  wf w = true -> wf (with_heap (alter set l) w) = true.
Proof.
  intros Hset Hw. apply wf_intro. intros k l' Hk. cbn in Hk |- *.
  destruct (wf_lookup w k l' Hw Hk) as (p & Hp & Hid).
  rewrite lookup_alter. destruct (decide (l = l')) as [->|_].
  - exists (set p). rewrite Hp. split; [done|]. by rewrite Hset.
  - by exists p.
Qed.

Lemma wf_delete (k : string) (w : World) :
  wf w = true -> wf (with_peers (delete k) w) = true.
Proof.
  intros Hw. apply wf_intro. intros k' l Hk. cbn in Hk |- *.
  apply lookup_delete_Some in Hk as [_ Hk]. by apply wf_lookup.
Qed.

Lemma wf_new_session (k : string) (p : Peer) (w : World) :
  peerId p = k -> wf w = true ->
  wf (with_peers <[k := fresh (dom (heap w))]>
        (with_heap <[fresh (dom (heap w)) := p]> w)) = true.
Proof.
  intros Hid Hw. apply wf_intro. intros k' l Hk. cbn in Hk |- *.
  apply lookup_insert_Some in Hk as [[<- <-]|[Hne Hk]].
  - exists p. by rewrite lookup_insert_eq.
  - destruct (wf_lookup w k' l Hw Hk) as (p' & Hp' & Hid').
    exists p'. split; [|done]. rewrite lookup_insert_ne; [done|].
    intros <-. assert (fresh (dom (heap w)) ∈ dom (heap w)) as Hf.
    { apply elem_of_dom. eauto. }
    by apply is_fresh in Hf.
Qed.

Section Preservation.

Context {A B : Type}.

Lemma preserves_ret (a : A) : preserves (ret a).
Proof. by intros w Hw. Qed.

Lemma preserves_throw (e : Error) : preserves (@throw A e).
Proof. by intros w Hw. Qed.

Lemma preserves_bind (m : M A) (k : A -> M B) :
  preserves m -> (forall a, preserves (k a)) -> preserves (bind m k).
Proof.
  intros Hm Hk w Hw. unfold bind. specialize (Hm w Hw).
  destruct (m w) as [[a|e] w1]; cbn in *; [by apply Hk|done].
Qed.

Lemma preserves_get_bind (k : World -> M B) :
  (forall w, wf w = true -> wf (k w w).2 = true) -> preserves (bind get k).
Proof. intros Hk w Hw. by apply Hk. Qed.

Lemma preserves_try_catch (m : M A) (h : Error -> M A) :
  preserves m -> (forall e, preserves (h e)) -> preserves (try_catch m h).
Proof.
  intros Hm Hh w Hw. unfold try_catch. specialize (Hm w Hw).
  destruct (m w) as [[a|e] w1]; cbn in *; [done|by apply Hh].
Qed.

Lemma preserves_try_finally (m : M A) (f : M unit) :
  preserves m -> preserves f -> preserves (try_finally m f).
Proof.
  intros Hm Hf w Hw. unfold try_finally. specialize (Hm w Hw).
  destruct (m w) as [r w1]. cbn in Hm. specialize (Hf w1 Hm).
  by destruct (f w1) as [[[]|e] w2].
Qed.

Lemma preserves_engine_call (ev : Event) (answer : list Event -> Error + A) :
  preserves (engine_call ev answer).
Proof. intros w Hw. unfold engine_call. by destruct (answer (trace w)). Qed.

Lemma preserves_prop (peer : PeerRef) (f : Peer -> A) : preserves (prop peer f).
Proof. intros w Hw. by destruct peer. Qed.

Lemma preserves_on_conn (pc : option conn) (k : conn -> M A) :
  (forall c, preserves (k c)) -> preserves (on_conn pc k).
Proof. intros Hk. destruct pc; [apply Hk|]. by intros w Hw. Qed.

Lemma preserves_forEach (xs : list A) (f : A -> M unit) :
  (forall x, preserves (f x)) -> preserves (forEach xs f).
Proof.
  intros Hf. induction xs as [|x xs IH]; intros w Hw; [done|].
  cbn [forEach]. unfold bind. specialize (Hf x w Hw).
  destruct (f x w) as [[[]|e] w1]; cbn in *; [by apply IH|done].
Qed.

End Preservation.

Lemma preserves_spawn (m : M unit) : preserves m -> preserves (spawn m).
Proof.
  intros Hm w Hw. unfold spawn. specialize (Hm w Hw).
  by destruct (m w) as [[[]|e] w1].
Qed.

Lemma preserves_emit (e : Event) : preserves (emit e).
Proof. by intros w Hw. Qed.

Lemma preserves_log_verbose (text : string) : preserves (log_verbose text).
Proof. intros w Hw. unfold log_verbose, bind, get. by destruct (verbose w). Qed.

Lemma preserves_assign (l : loc) (set : Peer -> Peer) :
  (forall p, peerId (set p) = peerId p) -> preserves (assign l set).
Proof. intros Hset w Hw. by apply wf_alter. Qed.

Lemma preserves_assign_ignoreOffer (peer : PeerRef) (v : bool) :
  preserves (assign_ignoreOffer peer v).
Proof.
  intros w Hw. destruct peer as [l|k| |]; [by apply wf_alter|idtac|done|done].
  cbn [assign_ignoreOffer]. by destruct (String.eqb k "__proto__").
Qed.

Lemma preserves_defined (d : option SessionDescription) : preserves (defined d).
Proof. intros w Hw. by destruct d. Qed.

Lemma preserves_delete (k : string) : preserves (modify (with_peers (delete k))).
Proof. intros w Hw. by apply wf_delete. Qed.

Lemma preserves_wire (c : conn) (l : loc) : preserves (modify (with_wired <[c := l]>)).
Proof. by intros w Hw. Qed.

Lemma preserves_get : preserves get.
Proof. by intros w Hw. Qed.

Create HintDb preserves.

#[local] Hint Resolve preserves_ret preserves_throw preserves_engine_call
  preserves_prop preserves_emit preserves_log_verbose preserves_defined
  preserves_delete preserves_wire preserves_get preserves_assign_ignoreOffer
  preserves_spawn preserves_forEach preserves_on_conn preserves_try_catch
  preserves_try_finally : preserves.

(** Walk down a handler, statement by statement. *)
Ltac pres :=
  repeat first
    [ progress intros
    | solve [auto with preserves]
    | apply preserves_bind
    | apply preserves_try_catch
    | apply preserves_try_finally
    | apply preserves_spawn
    | apply preserves_on_conn
    | apply preserves_forEach
    | apply preserves_assign; [by intros []|]
    | apply preserves_assign; by intros []
    | solve [auto with preserves]
    | match goal with
      | |- preserves (bind get _) => apply preserves_get_bind; intros ? ?
      | |- preserves (if ?b then _ else _) => destruct b
      | |- preserves (match ?x with _ => _ end) => destruct x
      end ].

Lemma preserves_removePeer (peer : PeerRef) : preserves (removePeer peer).
Proof.
  unfold removePeer. destruct (ref_truthy peer); [|by intros w Hw].
  pres.
Qed.

Lemma preserves_remove (k : string) : preserves (remove k).
Proof. intros w Hw. unfold remove, bind, get. by apply preserves_removePeer. Qed.

Lemma preserves_updateSessionDescription (E : Engine) (peer : PeerRef)
    (d : option SessionDescription) :
  preserves (updateSessionDescription E peer d).
Proof.
  unfold updateSessionDescription, offerCollision, signalingState, localDescription,
    setLocalDescription, setRemoteDescription, createAnswer, sendTo, console_error.
  pres.
Qed.

Lemma preserves_updateIceCandidate (E : Engine) (peer : PeerRef) (candidate : JsVal) :
  preserves (updateIceCandidate E peer candidate).
Proof. unfold updateIceCandidate, addIceCandidate. pres. Qed.

Lemma preserves_addPeer (E : Engine) (k t : string) (pol : JsVal) :
  preserves (addPeer E k t pol).
Proof.
  intros w Hw. unfold addPeer. unfold bind at 1, get. cbv beta iota.
  destruct (peers_in w k); [by apply preserves_log_verbose|].
  unfold new_RTCPeerConnection. unfold bind at 1 2 3 4 5 6, get, emit, modify, ret.
  cbv beta iota.
  match goal with
  | |- wf (bind ?m ?k ?w1).2 = true =>
      assert (wf w1 = true) as Hw1; [|revert Hw1; generalize w1; fold (preserves (bind m k))]
  end.
  { cbn [heap record]. apply (wf_new_session k _ (record _ w)); [done|by rewrite wf_record]. }
  unfold createDataChannel, updateNegotiationLogic, console_error. pres.
Qed.

Lemma preserves_signalingMessageHandler (E : Engine) (m : Message) :
  preserves (signalingMessageHandler E m).
Proof.
  unfold signalingMessageHandler.
  pose proof (preserves_addPeer E). pose proof preserves_removePeer.
  pose proof (preserves_updateSessionDescription E).
  pose proof (preserves_updateIceCandidate E).
  pres.
Qed.

Lemma preserves_signalingDisconnectHandler (K : KeyOrder) :
  preserves (signalingDisconnectHandler K).
Proof.
  unfold signalingDisconnectHandler, signalingDisconnectHandler_body.
  pose proof preserves_remove. pres.
Qed.

Lemma preserves_negotiationneeded (E : Engine) (c : conn) :
  preserves (negotiationneeded E c).
Proof.
  unfold negotiationneeded, onnegotiationneeded, createOffer, setLocalDescription,
    localDescription, sendTo, console_error.
  pres.
Qed.

Lemma preserves_icecandidate (c : conn) (candidate : JsVal) :
  preserves (icecandidate c candidate).
Proof. unfold icecandidate, onicecandidate, sendTo. pres. Qed.

Lemma preserves_iceconnectionstatechange (E : Engine) (c : conn) :
  preserves (iceconnectionstatechange E c).
Proof.
  unfold iceconnectionstatechange, oniceconnectionstatechange, iceConnectionState.
  pres.
Qed.

(** Every state the manager reaches from its constructor satisfies the
    invariant. *)
Lemma run_wf (E : Engine) (K : KeyOrder) (inputs : list Input) :
  forall w, wf w = true -> wf (run E K inputs w) = true.
Proof.
  induction inputs as [|i inputs IH]; intros w Hw; [done|].
  cbn [run fold_left]. apply IH. destruct i; cbn [handle].
  - by apply preserves_signalingMessageHandler.
  - by apply preserves_signalingDisconnectHandler.
  - by apply preserves_negotiationneeded.
  - by apply preserves_icecandidate.
  - by apply preserves_iceconnectionstatechange.
  - by apply preserves_remove.
Qed.

Lemma reachable_wf (E : Engine) (K : KeyOrder) (me kind : string) (o : Options)
    (inputs : list Input) :
  wf (run E K inputs (constructor me kind o)) = true.
Proof. apply run_wf, wf_constructor. Qed.

(** * Further properties of the manager *)

(** ** Lifting a relation through the handlers *)

Section Lifting.

Variable R : World -> World -> Prop.
Hypothesis R_refl : forall w, R w w.
Hypothesis R_trans : forall w1 w2 w3, R w1 w2 -> R w2 w3 -> R w1 w3.
Hypothesis R_record : forall e w, R w (record e w).

Lemma lifts_ret {A} (a : A) : lifts R (ret a).
Proof. intros w. apply R_refl. Qed.

Lemma lifts_throw {A} (e : Error) : lifts R (@throw A e).
Proof. intros w. apply R_refl. Qed.

Lemma lifts_get : lifts R get.
Proof. intros w. apply R_refl. Qed.

Lemma lifts_modify (g : World -> World) : (forall w, R w (g w)) -> lifts R (modify g).
Proof. intros Hg w. apply Hg. Qed.

Lemma lifts_emit (e : Event) : lifts R (emit e).
Proof. intros w. apply R_record. Qed.

Lemma lifts_bind {A B} (m : M A) (k : A -> M B) :
  lifts R m -> (forall a, lifts R (k a)) -> lifts R (bind m k).
Proof.
  intros Hm Hk w. unfold bind. specialize (Hm w).
  destruct (m w) as [[a|e] w1]; cbn in *; [|done].
  eapply R_trans; [exact Hm|apply Hk].
Qed.

Lemma lifts_get_bind {B} (k : World -> M B) :
  (forall w, R w (k w w).2) -> lifts R (bind get k).
Proof. intros Hk w. apply Hk. Qed.

Lemma lifts_try_catch {A} (m : M A) (h : Error -> M A) :
  lifts R m -> (forall e, lifts R (h e)) -> lifts R (try_catch m h).
Proof.
  intros Hm Hh w. unfold try_catch. specialize (Hm w).
  destruct (m w) as [[a|e] w1]; cbn in *; [done|].
  eapply R_trans; [exact Hm|apply Hh].
Qed.

Lemma lifts_try_finally {A} (m : M A) (f : M unit) :
  lifts R m -> lifts R f -> lifts R (try_finally m f).
Proof.
  intros Hm Hf w. unfold try_finally. specialize (Hm w).
  destruct (m w) as [r w1]. cbn in Hm. specialize (Hf w1).
  destruct (f w1) as [[[]|e] w2]; cbn in *; eapply R_trans; eauto.
Qed.

Lemma lifts_spawn (m : M unit) : lifts R m -> lifts R (spawn m).
Proof.
  intros Hm w. unfold spawn. specialize (Hm w).
  destruct (m w) as [[[]|e] w1]; cbn in *; [done|].
  eapply R_trans; [exact Hm|apply R_record].
Qed.

Lemma lifts_engine_call {A} (ev : Event) (answer : list Event -> Error + A) :
  lifts R (engine_call ev answer).
Proof. intros w. unfold engine_call. destruct (answer (trace w)); apply R_record. Qed.

Lemma lifts_prop {A} (peer : PeerRef) (f : Peer -> A) : lifts R (prop peer f).
Proof. intros w. destruct peer; apply R_refl. Qed.

Lemma lifts_on_conn {A} (pc : option conn) (k : conn -> M A) :
  (forall c, lifts R (k c)) -> lifts R (on_conn pc k).
Proof. intros Hk. destruct pc; [apply Hk|apply lifts_throw]. Qed.

Lemma lifts_defined (d : option SessionDescription) : lifts R (defined d).
Proof. destruct d; [apply lifts_ret|apply lifts_throw]. Qed.

Lemma lifts_log_verbose (text : string) : lifts R (log_verbose text).
Proof.
  intros w. unfold log_verbose, bind, get.
  destruct (verbose w); [apply R_record|apply R_refl].
Qed.

Lemma lifts_forEach {A} (xs : list A) (f : A -> M unit) :
  (forall x, lifts R (f x)) -> lifts R (forEach xs f).
Proof.
  intros Hf. induction xs as [|x xs IH]; [apply lifts_ret|].
  cbn [forEach]. apply lifts_bind; [apply Hf|]. intros _. apply IH.
Qed.

(** What the handlers write. *)
Hypothesis R_ignoreOffer :
  forall v l w, R w (with_heap (alter (set_ignoreOffer v) l) w).
Hypothesis R_makingOffer :
  forall v l w, R w (with_heap (alter (set_makingOffer v) l) w).
Hypothesis R_dataChannel :
  forall v l w, R w (with_heap (alter (set_dataChannel v) l) w).
Hypothesis R_pollute : forall w, R w (pollute w).
Hypothesis R_wire : forall c l w, R w (with_wired <[c := l]> w).
Hypothesis R_delete : forall k w, R w (with_peers (delete k) w).
Hypothesis R_new :
  forall k p w, peers w !! k = None ->
    R w (with_peers <[k := fresh (dom (heap w))]>
           (with_heap <[fresh (dom (heap w)) := p]> w)).

Ltac lift :=
  repeat first
    [ progress intros
    | solve [auto]
    | apply lifts_ret | apply lifts_throw | apply lifts_get | apply lifts_emit
    | apply lifts_engine_call | apply lifts_prop | apply lifts_defined
    | apply lifts_log_verbose
    | apply lifts_modify; intros; first
        [ apply R_ignoreOffer | apply R_makingOffer | apply R_dataChannel
        | apply R_pollute | apply R_wire | apply R_delete ]
    | apply lifts_bind
    | apply lifts_try_catch
    | apply lifts_try_finally
    | apply lifts_spawn
    | apply lifts_on_conn
    | apply lifts_forEach
    | match goal with
      | |- lifts R (if ?b then _ else _) => destruct b
      | |- lifts R (match ?x with _ => _ end) => destruct x
      end ].

Lemma lifts_assign_ignoreOffer (peer : PeerRef) (v : bool) :
  lifts R (assign_ignoreOffer peer v).
Proof. unfold assign_ignoreOffer, assign. lift. Qed.

Lemma lifts_updateSessionDescription (E : Engine) (peer : PeerRef)
    (d : option SessionDescription) :
  lifts R (updateSessionDescription E peer d).
Proof.
  pose proof lifts_assign_ignoreOffer.
  unfold updateSessionDescription, offerCollision, signalingState, localDescription,
    setLocalDescription, setRemoteDescription, createAnswer, sendTo, console_error.
  lift; auto.
Qed.

Lemma lifts_updateIceCandidate (E : Engine) (peer : PeerRef) (candidate : JsVal) :
  lifts R (updateIceCandidate E peer candidate).
Proof. unfold updateIceCandidate, addIceCandidate. lift. Qed.

Lemma lifts_negotiationneeded (E : Engine) (c : conn) :
  lifts R (negotiationneeded E c).
Proof.
  unfold negotiationneeded, onnegotiationneeded, createOffer, setLocalDescription,
    localDescription, sendTo, console_error, assign.
  lift.
Qed.

Lemma lifts_icecandidate (c : conn) (candidate : JsVal) :
  lifts R (icecandidate c candidate).
Proof. unfold icecandidate, onicecandidate, sendTo. lift. Qed.

Lemma lifts_iceconnectionstatechange (E : Engine) (c : conn) :
  lifts R (iceconnectionstatechange E c).
Proof.
  unfold iceconnectionstatechange, oniceconnectionstatechange, iceConnectionState.
  lift.
Qed.

Lemma lifts_removePeer (peer : PeerRef) : lifts R (removePeer peer).
Proof. unfold removePeer. lift. Qed.

Lemma lifts_remove (k : string) : lifts R (remove k).
Proof. intros w. unfold remove, bind, get. apply lifts_removePeer. Qed.

Lemma lifts_addPeer (E : Engine) (k t : string) (pol : JsVal) :
  lifts R (addPeer E k t pol).
Proof.
  intros w. unfold addPeer. unfold bind at 1, get. cbv beta iota.
  destruct (peers_in w k) eqn:Hin; [apply lifts_log_verbose|].
  assert (peers w !! k = None) as Hk.
  { unfold peers_in in Hin. by destruct (peers w !! k). }
  unfold new_RTCPeerConnection. unfold bind at 1 2 3 4 5 6, get, emit, modify, ret.
  cbv beta iota.
  match goal with
  | |- R w (bind ?m ?k ?w1).2 =>
      apply (R_trans w w1); [|generalize w1; fold (lifts R (bind m k))]
  end.
  { eapply R_trans; [apply (R_record (NewRTCPeerConnection (length (trace w))))|].
    by apply (R_new k _ (record _ w)). }
  unfold createDataChannel, updateNegotiationLogic, console_error, assign. lift.
Qed.

Lemma lifts_signalingMessageHandler (E : Engine) (m : Message) :
  lifts R (signalingMessageHandler E m).
Proof.
  pose proof (lifts_addPeer E). pose proof lifts_removePeer.
  pose proof (lifts_updateSessionDescription E).
  pose proof (lifts_updateIceCandidate E).
  unfold signalingMessageHandler. lift; auto.
Qed.

Lemma lifts_signalingDisconnectHandler (K : KeyOrder) :
  lifts R (signalingDisconnectHandler K).
Proof.
  pose proof lifts_remove.
  unfold signalingDisconnectHandler, signalingDisconnectHandler_body. lift; auto.
Qed.

Lemma lifts_handle (E : Engine) (K : KeyOrder) (i : Input) : lifts R (handle E K i).
Proof.
  destruct i; cbn [handle].
  - apply lifts_signalingMessageHandler.
  - apply lifts_signalingDisconnectHandler.
  - apply lifts_negotiationneeded.
  - apply lifts_icecandidate.
  - apply lifts_iceconnectionstatechange.
  - apply lifts_remove.
Qed.

(** The inputs that do not concern membership need none of the writes to
    [this.peers]. *)
Lemma lifts_handle_negotiation (E : Engine) (K : KeyOrder) (i : Input) :
  changes_membership i = false -> lifts R (handle E K i).
Proof.
  destruct i as [m| |c|c candidate|c|k]; cbn [handle changes_membership]; try done; intros Hi.
  - destruct m as [sender [a cs bp d ic]]. cbn [payload action] in Hi.
    apply orb_false_iff in Hi as [Ho Hc].
    unfold signalingMessageHandler. cbn [payload action from sdp ice connections bePolite].
    rewrite Ho, Hc.
    pose proof (lifts_updateSessionDescription E).
    pose proof (lifts_updateIceCandidate E).
    lift.
  - apply lifts_negotiationneeded.
  - apply lifts_icecandidate.
  - apply lifts_iceconnectionstatechange.
Qed.

Lemma lifts_run (E : Engine) (K : KeyOrder) (inputs : list Input) :
  forall w, R w (run E K inputs w).
Proof.
  induction inputs as [|i inputs IH]; intros w; [apply R_refl|].
  cbn [run fold_left]. eapply R_trans; [apply (lifts_handle E K i)|apply IH].
Qed.

End Lifting.

(** ** What a handler records *)

Section Emits.

Variable ok : Event -> bool.

Lemma emits_ret {A} (a : A) : emits ok (ret a).
Proof. intros w. exists []. by rewrite app_nil_r. Qed.

Lemma emits_throw {A} (e : Error) : emits ok (@throw A e).
Proof. intros w. exists []. by rewrite app_nil_r. Qed.

Lemma emits_get : emits ok get.
Proof. intros w. exists []. by rewrite app_nil_r. Qed.

Lemma emits_modify (g : World -> World) :
  (forall w, trace (g w) = trace w) -> emits ok (modify g).
Proof. intros Hg w. exists []. cbn. by rewrite Hg, app_nil_r. Qed.

Lemma emits_emit (e : Event) : ok e = true -> emits ok (emit e).
Proof. intros He w. exists [e]. cbn. by rewrite He. Qed.

Lemma emits_bind {A B} (m : M A) (k : A -> M B) :
  emits ok m -> (forall a, emits ok (k a)) -> emits ok (bind m k).
Proof.
  intros Hm Hk w. unfold bind. destruct (Hm w) as (evs & Ht & Hok).
  destruct (m w) as [[a|e] w1]; cbn in *; [|by exists evs].
  destruct (Hk a w1) as (evs' & Ht' & Hok').
  exists (evs ++ evs'). rewrite Ht', Ht, app_assoc. split; [done|].
  rewrite forallb_app. by rewrite Hok, Hok'.
Qed.

Lemma emits_try_catch {A} (m : M A) (h : Error -> M A) :
  emits ok m -> (forall e, emits ok (h e)) -> emits ok (try_catch m h).
Proof.
  intros Hm Hh w. unfold try_catch. destruct (Hm w) as (evs & Ht & Hok).
  destruct (m w) as [[a|e] w1]; cbn in *; [by exists evs|].
  destruct (Hh e w1) as (evs' & Ht' & Hok').
  exists (evs ++ evs'). rewrite Ht', Ht, app_assoc. split; [done|].
  rewrite forallb_app. by rewrite Hok, Hok'.
Qed.

Lemma emits_try_finally {A} (m : M A) (f : M unit) :
  emits ok m -> emits ok f -> emits ok (try_finally m f).
Proof.
  intros Hm Hf w. unfold try_finally. destruct (Hm w) as (evs & Ht & Hok).
  destruct (m w) as [r w1]. cbn in Ht.
  destruct (Hf w1) as (evs' & Ht' & Hok').
  exists (evs ++ evs'). rewrite forallb_app, Hok, Hok'.
  destruct (f w1) as [[[]|e] w2]; cbn in *; by rewrite Ht', Ht, app_assoc.
Qed.

(** A dropped promise that cannot reject leaves nothing behind. *)
Lemma emits_spawn_total (m : M unit) : emits ok m -> total m -> emits ok (spawn m).
Proof.
  intros Hm Htot w. unfold spawn. destruct (Hm w) as (evs & Ht & Hok).
  destruct (Htot w) as [a Ha].
  destruct (m w) as [[[]|e] w1]; cbn in *; [by exists evs|done].
Qed.

Lemma emits_spawn (m : M unit) :
  emits ok m -> (forall e, ok (UnhandledRejection e) = true) -> emits ok (spawn m).
Proof.
  intros Hm Hu w. unfold spawn. destruct (Hm w) as (evs & Ht & Hok).
  destruct (m w) as [[[]|e] w1]; cbn in *; [by exists evs|].
  exists (evs ++ [UnhandledRejection e]). rewrite Ht, app_assoc. split; [done|].
  rewrite forallb_app, Hok. cbn. by rewrite Hu.
Qed.

Lemma emits_engine_call {A} (ev : Event) (answer : list Event -> Error + A) :
  ok ev = true -> emits ok (engine_call ev answer).
Proof.
  intros He w. exists [ev]. unfold engine_call.
  destruct (answer (trace w)); cbn; by rewrite He.
Qed.

Lemma emits_prop {A} (peer : PeerRef) (f : Peer -> A) : emits ok (prop peer f).
Proof. intros w. exists []. rewrite app_nil_r. by destruct peer. Qed.

Lemma emits_on_conn {A} (pc : option conn) (k : conn -> M A) :
  (forall c, emits ok (k c)) -> emits ok (on_conn pc k).
Proof. intros Hk. destruct pc; [apply Hk|apply emits_throw]. Qed.

Lemma emits_defined (d : option SessionDescription) : emits ok (defined d).
Proof. destruct d; [apply emits_ret|apply emits_throw]. Qed.

Lemma emits_log_verbose (text : string) :
  ok (ConsoleLog text) = true -> emits ok (log_verbose text).
Proof.
  intros He w. unfold log_verbose, bind, get.
  destruct (verbose w); [by apply emits_emit|apply emits_ret].
Qed.

Lemma emits_forEach {A} (xs : list A) (f : A -> M unit) :
  (forall x, emits ok (f x)) -> emits ok (forEach xs f).
Proof.
  intros Hf. induction xs as [|x xs IH]; [apply emits_ret|].
  cbn [forEach]. apply emits_bind; [apply Hf|]. intros _. apply IH.
Qed.

Lemma emits_since {A} (m : M A) (w : World) :
  emits ok m -> forallb ok (since w (m w).2) = true.
Proof.
  intros Hm. destruct (Hm w) as (evs & Ht & Hok).
  unfold since. by rewrite Ht, drop_app_length.
Qed.

End Emits.

(** A try whose catch only logs never throws. *)
Lemma total_try_catch_log (m : M unit) : total (try_catch m console_error).
Proof.
  intros w. unfold try_catch. destruct (m w) as [[[]|e] w1]; by exists tt.
Qed.

Lemma total_updateSessionDescription (E : Engine) (peer : PeerRef)
    (d : option SessionDescription) :
  total (updateSessionDescription E peer d).
Proof. apply total_try_catch_log. Qed.

Lemma total_onnegotiationneeded (E : Engine) (l : loc) (c : conn) :
  total (onnegotiationneeded E l c).
Proof.
  intros w. unfold onnegotiationneeded, try_finally.
  destruct (total_try_catch_log
              (let* pol := prop (RefPeer l) polite in
               if negb (truthy (default JUndefined pol)) then
                 assign l (set_makingOffer true) >>
                 let* offer := createOffer E c in
                 setLocalDescription E c offer >>
                 let* id := prop (RefPeer l) peerId in
                 log_verbose ("Sending offer to " +:+ default "undefined" id) >>
                 let* ld := localDescription E c in
                 sendTo (default "undefined" id) (OutSdp ld)
               else ret tt) w) as [[] Ha].
  destruct (try_catch _ _ w) as [r w1]. cbn in Ha. subst r. by exists tt.
Qed.

(** Walk down a handler for [emits]; side conditions on events compute. *)
Ltac emit_walk :=
  repeat first
    [ progress intros
    | solve [auto]
    | apply emits_ret | apply emits_throw | apply emits_get
    | apply emits_prop | apply emits_defined
    | apply emits_emit; reflexivity
    | apply emits_engine_call; reflexivity
    | apply emits_log_verbose; reflexivity
    | apply emits_modify; reflexivity
    | apply emits_bind
    | apply emits_try_catch
    | apply emits_try_finally
    | apply emits_spawn; [|intros; reflexivity]
    | apply emits_on_conn
    | apply emits_forEach
    | match goal with
      | |- emits _ (if ?b then _ else _) => destruct b
      | |- emits _ (match ?x with _ => _ end) => destruct x
      end ].

Ltac emit_unfold :=
  unfold updateSessionDescription, updateIceCandidate, offerCollision,
    negotiationneeded, icecandidate, iceconnectionstatechange,
    onnegotiationneeded, onicecandidate, oniceconnectionstatechange,
    assign_ignoreOffer, assign,
    signalingState, localDescription, iceConnectionState,
    setLocalDescription, setRemoteDescription, createAnswer, createOffer,
    addIceCandidate, sendTo, console_error.

(** ** Invariants of every run *)

(** X1. No handler assigns [this.verbose] or [this.options], and the
    constructor leaves [verbose] unset: after any sequence of messages and
    events both are as they were, so from the constructor on [verbose] stays
    unset unless the host writes the field itself. *)
Theorem handlers_keep_configuration (E : Engine) (K : KeyOrder) (inputs : list Input) :
  (forall w, verbose (run E K inputs w) = verbose w
             /\ options (run E K inputs w) = options w)
  /\ forall me kind o, verbose (run E K inputs (constructor me kind o)) = false.
Proof.
  assert (forall w, verbose (run E K inputs w) = verbose w
                    /\ options (run E K inputs w) = options w) as H.
  { intros w.
    apply (lifts_run (fun w w' => verbose w' = verbose w /\ options w' = options w));
      try done.
    intros w1 w2 w3 [? ?] [? ?]. split; congruence. }
  split; [exact H|]. intros me kind o. by rewrite (proj1 (H _)).
Qed.

Lemma same_sessions_refl (w : World) : same_sessions w w.
Proof. intros l p Hp. by exists p. Qed.

Lemma same_sessions_heap (w w' : World) : heap w' = heap w -> same_sessions w w'.
Proof. intros H l p Hp. exists p. by rewrite H. Qed.

Lemma same_sessions_trans (w1 w2 w3 : World) :
  same_sessions w1 w2 -> same_sessions w2 w3 -> same_sessions w1 w3.
Proof.
  intros H12 H23 l p Hp.
  destruct (H12 l p Hp) as (p2 & Hp2 & ? & ? & ? & ?).
  destruct (H23 l p2 Hp2) as (p3 & Hp3 & ? & ? & ? & ?).
  exists p3. repeat split; congruence.
Qed.

Lemma same_sessions_alter (set : Peer -> Peer) (l : loc) (w : World) :
  (forall p, peerId (set p) = peerId p /\ peerType (set p) = peerType p
             /\ polite (set p) = polite p
             /\ rtcPeerConnection (set p) = rtcPeerConnection p) ->
  same_sessions w (with_heap (alter set l) w).
Proof.
  intros Hset l' p Hp. cbn. rewrite lookup_alter.
  destruct (decide (l = l')) as [->|_].
  - exists (set p). rewrite Hp. split; [done|]. apply Hset.
  - by exists p.
Qed.

(** X2. A session object, once created, keeps its peerId, peerType, polite
    role and connection through any sequence of messages and events, and is
    never discarded: removal only takes its key out of [this.peers]. *)
Theorem sessions_keep_identity (E : Engine) (K : KeyOrder) (inputs : list Input)
    (w : World) :
  same_sessions w (run E K inputs w).
Proof.
  apply lifts_run.
  - apply same_sessions_refl.
  - apply same_sessions_trans.
  - intros e w1. by apply same_sessions_heap.
  - intros v l w1. by apply same_sessions_alter.
  - intros v l w1. by apply same_sessions_alter.
  - intros v l w1. by apply same_sessions_alter.
  - intros w1. by apply same_sessions_heap.
  - intros c l w1. by apply same_sessions_heap.
  - intros k w1. by apply same_sessions_heap.
  - intros k p w1 _ l p' Hp'. exists p'. split; [|done]. cbn.
    rewrite lookup_insert_ne; [done|].
    intros <-. assert (fresh (dom (heap w1)) ∈ dom (heap w1)) as Hf.
    { apply elem_of_dom. eauto. }
    by apply is_fresh in Hf.
Qed.

Lemma sessions_keep_identity_witness :
  let w := alice_bob (JBool true) in
  let w' := run engine_no_rollback mapOrder
              [Incoming (message "bob" "sdp" (Some (offer_from "bob")) JUndefined);
               NegotiationNeeded 0;
               Incoming (message "bob" "close" None JUndefined)] w in
  exists p', heap w' !! 0 = Some p'
    /\ peerId p' = "bob" /\ peerType p' = "robot"
    /\ polite p' = JBool true /\ rtcPeerConnection p' = 0.
Proof.
  intros w w'.
  exact (sessions_keep_identity engine_no_rollback mapOrder _ w 0
           (bob_session (JBool true)) eq_refl).
Defined.

(** X3. In every state the manager reaches from its constructor, each key of
    [this.peers] points to a session object whose [peerId] is that key. *)
Theorem session_map_invariant (E : Engine) (K : KeyOrder) (me kind : string)
    (o : Options) (inputs : list Input) (k : string) (l : loc) :
  let w := run E K inputs (constructor me kind o) in
  peers w !! k = Some l ->
  exists p, heap w !! l = Some p /\ peerId p = k.
Proof.
  intros w Hk. apply wf_lookup; [|done]. apply run_wf, wf_constructor.
Qed.

Lemma session_map_invariant_witness :
  let w := run (engine_ok "stable") mapOrder
             [Incoming (open_message [{| newPeerId := "bob"; newPeerType := "robot" |};
                                      {| newPeerId := "carol"; newPeerType := "robot" |}]
                          (JBool true));
              NegotiationNeeded 0;
              Incoming (message "bob" "close" None JUndefined)]
             (constructor "alice" "robot" with_channels) in
  peers w !! "carol" = Some 1
  /\ exists p, heap w !! 1 = Some p /\ peerId p = "carol".
Proof.
  intros w.
  assert (peers w !! "carol" = Some 1) as Hk by (vm_compute; reflexivity).
  split; [exact Hk|].
  exact (session_map_invariant (engine_ok "stable") mapOrder "alice" "robot"
           with_channels _ "carol" 1 Hk).
Defined.

(** X4. Only an "open" or "close" message, a disconnect or a call of remove
    touches the set of sessions: any other message (an "sdp" or "ice" message
    from anyone, an unknown action) and any engine event leaves [this.peers]
    as it is, and creates or closes no connection or data channel, whatever the
    engine answers. *)
Theorem negotiation_keeps_sessions (E : Engine) (K : KeyOrder) (i : Input) (w : World) :
  changes_membership i = false ->
  peers (handle E K i w).2 = peers w
  /\ forallb (fun e => negb (is_lifecycle e)) (since w (handle E K i w).2) = true.
Proof.
  intros Hi. split.
  - apply (lifts_handle_negotiation (fun w w' => peers w' = peers w)); try done.
    intros w1 w2 w3. congruence.
  - apply emits_since.
    destruct i as [m| |c|c candidate|c|k]; cbn [handle changes_membership] in *; try done.
    + destruct m as [sender [a cs bp d ic]]. cbn [payload action] in Hi.
      apply orb_false_iff in Hi as [Ho Hc].
      unfold signalingMessageHandler. cbn [payload action from sdp ice connections bePolite].
      rewrite Ho, Hc. emit_unfold. emit_walk.
    + emit_unfold. emit_walk.
    + emit_unfold. emit_walk.
    + emit_unfold. emit_walk.
Qed.

Lemma negotiation_keeps_sessions_witness :
  let w := alice_bob (JBool true) in
  let i := Incoming (message "bob" "sdp" (Some (offer_from "bob")) JUndefined) in
  peers (handle engine_no_rollback mapOrder i w).2 = peers w
  /\ forallb (fun e => negb (is_lifecycle e))
       (since w (handle engine_no_rollback mapOrder i w).2) = true.
Proof.
  intros w i. exact (negotiation_keeps_sessions engine_no_rollback mapOrder i w eq_refl).
Defined.

(** ** addPeer and the "open" message *)

Lemma grows_peers_in (w w' : World) (k : string) :
  grows w w' -> peers_in w k = true -> peers_in w' k = true.
Proof.
  intros [Hk Hp]. unfold peers_in, inherits_ignoreOffer.
  destruct (peers w !! k) as [l|] eqn:Hl; [by rewrite (Hk k l Hl)|].
  destruct (peers w' !! k); [done|].
  destruct (builtin k); [done|]. cbn.
  destruct (polluted w); [|done]. by rewrite Hp.
Qed.

Lemma addPeer_grows (E : Engine) (k t : string) (pol : JsVal) :
  lifts grows (addPeer E k t pol).
Proof.
  apply lifts_addPeer.
  - by intros w.
  - intros w1 w2 w3 [H12 H12'] [H23 H23']. split; auto.
  - by intros e w.
  - by intros v l w.
  - by intros c l w.
  - intros k' p w Hk'. split; [|done]. intros k'' l Hl. cbn.
    rewrite lookup_insert_ne; [done|]. intros <-. congruence.
Qed.

Lemma addPeer_in (E : Engine) (w : World) (k t : string) (pol : JsVal) :
  (addPeer E k t pol w).1 = Normal tt ->
  peers_in (addPeer E k t pol w).2 k = true.
Proof.
  intros Hr. destruct (peers_in w k) eqn:Hin.
  - apply (grows_peers_in w); [apply addPeer_grows|done].
  - destruct (addPeer_new E w k t pol Hin Hr) as (Hps & _).
    unfold peers_in. by rewrite Hps, lookup_insert_eq.
Qed.

(** X5. addPeer for an id that is not yet in [this.peers], when it completes:
    exactly one session object is allocated, at a location nothing used
    before, and registered under that id; it carries the given type and
    polite flag, a connection of its own, makingOffer and ignoreOffer false; the
    callbacks are installed on that connection; no other session or key is
    touched. *)
Theorem addPeer_registers_session (E : Engine) (w : World) (k t : string) (pol : JsVal) :
  peers_in w k = false ->
  (addPeer E k t pol w).1 = Normal tt ->
  let w' := (addPeer E k t pol w).2 in
  let l := fresh (dom (heap w)) in
  let c := length (trace w) in
  heap w !! l = None
  /\ peers w' = <[k := l]> (peers w)
  /\ wired w' = <[c := l]> (wired w)
  /\ exists p, heap w' = <[l := p]> (heap w)
       /\ peerId p = k /\ peerType p = t /\ polite p = pol
       /\ rtcPeerConnection p = c /\ makingOffer p = false /\ ignoreOffer p = false.
Proof.
  intros Hin Hr w' l c.
  destruct (addPeer_new E w k t pol Hin Hr) as (Hps & Hwd & _ & Hp).
  split; [|done]. apply not_elem_of_dom, is_fresh.
Qed.

Lemma addPeer_registers_session_witness :
  let w' := (addPeer (engine_ok "stable") "bob" "robot" (JBool true) alice).2 in
  peers w' = <["bob" := 0]> (peers alice)
  /\ wired w' = <[0 := 0]> (wired alice).
Proof.
  intros w'.
  destruct (addPeer_registers_session (engine_ok "stable") alice "bob" "robot" (JBool true)
              eq_refl eq_refl) as (_ & Hps & Hwd & _).
  split; [exact Hps|exact Hwd].
Defined.

(** X6. A peerId is added once: after an addPeer that completed, a second
    addPeer for the same id, with whatever type and polite flag, changes
    nothing (it only logs when verbose), so the session keeps the role it got
    first. *)
Theorem addPeer_duplicate (E : Engine) (w : World) (k t t' : string) (pol pol' : JsVal) :
  (addPeer E k t pol w).1 = Normal tt ->
  let w1 := (addPeer E k t pol w).2 in
  addPeer E k t' pol' w1
  = (Normal tt,
     (if verbose w1
      then record (ConsoleLog ("A peer connection with " +:+ k +:+ " already exists"))
      else id) w1).
Proof.
  intros Hr w1. apply addPeer_existing. by apply addPeer_in.
Qed.

Lemma addPeer_duplicate_witness :
  let w1 := alice_bob (JBool true) in
  addPeer (engine_ok "stable") "bob" "admin" (JBool false) w1 = (Normal tt, w1).
Proof.
  intros w1.
  exact (addPeer_duplicate (engine_ok "stable") alice "bob" "robot" "admin"
           (JBool true) (JBool false) eq_refl).
Defined.

(** X7. A peerId that names a member of Object.prototype ("constructor",
    "toString", ...) is never given a session: [peerId in this.peers] is true
    for it from the start, so addPeer takes it for a duplicate and creates
    nothing. *)
Theorem addPeer_prototype_name (E : Engine) (w : World) (k t : string) (pol : JsVal) :
  builtin k = true ->
  let r := addPeer E k t pol w in
  r.1 = Normal tt /\ peers r.2 = peers w /\ heap r.2 = heap w /\ wired r.2 = wired w
  /\ forallb (fun e => negb (is_lifecycle e)) (since w r.2) = true.
Proof.
  intros Hb r. subst r.
  assert (peers_in w k = true) as Hin.
  { unfold peers_in. rewrite Hb. by destruct (peers w !! k). }
  rewrite (addPeer_existing E w k t pol Hin). unfold since.
  destruct (verbose w); cbn; repeat split; try done.
  - by rewrite drop_app_length.
  - by rewrite drop_all.
Qed.

Lemma addPeer_prototype_name_witness :
  let r := addPeer (engine_ok "stable") "toString" "robot" (JBool false) alice in
  r.1 = Normal tt /\ peers r.2 = peers alice.
Proof.
  intros r.
  destruct (addPeer_prototype_name (engine_ok "stable") alice "toString" "robot"
              (JBool false) eq_refl) as (Hr & Hp & _).
  split; [exact Hr|exact Hp].
Defined.

Lemma negotiationneeded_unwired (E : Engine) (w : World) (c : conn) :
  wired w !! c = None -> negotiationneeded E c w = (Normal tt, w).
Proof. intros Hc. unfold negotiationneeded, bind, get. by rewrite Hc. Qed.

(** X8. When data channels are enabled and createDataChannel throws, the
    exception leaves addPeer after the session was registered and before its
    callbacks were installed: the id is in [this.peers] with no data channel,
    and a negotiation-needed event on its connection does nothing at all. *)
Theorem addPeer_createDataChannel_throws (E : Engine) (w : World) (k t : string)
    (pol : JsVal) (e : Error) :
  peers_in w k = false ->
  enableDataChannel (options w) = true ->
  let c := length (trace w) in
  let l := fresh (dom (heap w)) in
  eng_createDataChannel E (trace w ++ [NewRTCPeerConnection c]) c (k +:+ "Channel") = Some e ->
  wired w !! c = None ->
  let r := addPeer E k t pol w in
  r.1 = Throw e
  /\ peers r.2 !! k = Some l
  /\ (exists p, heap r.2 !! l = Some p /\ dataChannel p = None /\ rtcPeerConnection p = c)
  /\ wired r.2 = wired w
  /\ negotiationneeded E c r.2 = (Normal tt, r.2).
Proof.
  intros Hin Hopt c l He Hw r.
  assert (r.1 = Throw e
          /\ peers r.2 !! k = Some l
          /\ (exists p, heap r.2 !! l = Some p /\ dataChannel p = None
                        /\ rtcPeerConnection p = c)
          /\ wired r.2 = wired w) as (H1 & H2 & H3 & H4).
  { subst r c l. mrun Hin. rewrite Hopt. mrun Hin. rewrite He. mrun Hin.
    rewrite !lookup_insert_eq. repeat split; try done.
    eexists. split; [reflexivity|done]. }
  repeat split; try done.
  apply negotiationneeded_unwired. by rewrite H4.
Qed.

Lemma addPeer_createDataChannel_throws_witness :
  let r := addPeer engine_no_channel "bob" "robot" (JBool false) alice in
  r.1 = Throw (EngineError "createDataChannel failed")
  /\ peers r.2 !! "bob" = Some 0
  /\ negotiationneeded engine_no_channel 0 r.2 = (Normal tt, r.2).
Proof.
  intros r.
  destruct (addPeer_createDataChannel_throws engine_no_channel alice "bob" "robot"
              (JBool false) (EngineError "createDataChannel failed")
              eq_refl eq_refl eq_refl eq_refl) as (Hr & Hp & _ & _ & Hn).
  split; [exact Hr|]. split; [exact Hp|exact Hn].
Defined.

(** X9. An exception thrown by the host's dataChannelHandler is caught inside
    addPeer: it is logged with console.error, addPeer completes, and the
    session is registered with its data channel and its callbacks installed. *)
Theorem addPeer_handler_throws (E : Engine) (w : World) (k t : string)
    (pol : JsVal) (e : Error) :
  peers_in w k = false ->
  enableDataChannel (options w) = true ->
  let c := length (trace w) in
  let l := fresh (dom (heap w)) in
  eng_createDataChannel E (trace w ++ [NewRTCPeerConnection c]) c (k +:+ "Channel") = None ->
  dataChannelHandler (options w) k = Some e ->
  let r := addPeer E k t pol w in
  r.1 = Normal tt
  /\ since w r.2
     = [NewRTCPeerConnection c; CreateDataChannel c (k +:+ "Channel");
        DataChannelHandler k; ConsoleError e]
  /\ peers r.2 !! k = Some l
  /\ wired r.2 !! c = Some l
  /\ dataChannel <$> heap r.2 !! l = Some (Some (S c)).
Proof.
  intros Hin Hopt c l He Hh r. subst r c l. unfold since.
  mrun Hin. rewrite Hopt. mrun Hin. rewrite He. mrun Hin. rewrite Hh. mrun Hin.
  rewrite !lookup_insert_eq. mrun Hin. rewrite !lookup_insert_eq.
  rewrite <- !app_assoc. cbn [app]. rewrite drop_app_length.
  repeat split; try done.
  rewrite length_app. cbn. f_equal. f_equal. lia.
Qed.

Lemma addPeer_handler_throws_witness :
  let w := constructor "alice" "robot" with_throwing_handler in
  let r := addPeer (engine_ok "stable") "bob" "robot" (JBool false) w in
  r.1 = Normal tt
  /\ since w r.2
     = [NewRTCPeerConnection 0; CreateDataChannel 0 "bobChannel";
        DataChannelHandler "bob"; ConsoleError (AppError "handler failed")].
Proof.
  intros w r.
  destruct (addPeer_handler_throws (engine_ok "stable") w "bob" "robot" (JBool false)
              (AppError "handler failed") eq_refl eq_refl eq_refl eq_refl)
    as (Hr & Hs & _).
  split; [exact Hr|exact Hs].
Defined.

Lemma addPeer_without_channels (E : Engine) (w : World) (k t : string) (pol : JsVal) :
  enableDataChannel (options w) = false ->
  (addPeer E k t pol w).1 = Normal tt
  /\ options (addPeer E k t pol w).2 = options w.
Proof.
  intros Hopt. destruct (peers_in w k) eqn:Hin.
  - rewrite (addPeer_existing E w k t pol Hin). by destruct (verbose w).
  - mrun Hin. rewrite Hopt. mrun Hin. rewrite !lookup_insert_eq. by mrun Hin.
Qed.

Lemma open_loop (E : Engine) (pol : JsVal) (cs : list NewPeer) :
  forall w,
    let f := fun np => addPeer E (newPeerId np) (newPeerType np) pol in
    let r := forEach cs f w in
    grows w r.2
    /\ (r.1 = Normal tt -> forall np, np ∈ cs -> peers_in r.2 (newPeerId np) = true)
    /\ (enableDataChannel (options w) = false -> r.1 = Normal tt).
Proof.
  induction cs as [|np cs IH]; intros w f r.
  - subst r. cbn. split; [done|]. split; [|done]. intros _ np Hnp.
    by apply elem_of_nil in Hnp.
  - subst r. cbn [forEach]. unfold bind.
    pose proof (addPeer_grows E (newPeerId np) (newPeerType np) pol w) as Hg.
    pose proof (addPeer_in E w (newPeerId np) (newPeerType np) pol) as Hi.
    pose proof (addPeer_without_channels E w (newPeerId np) (newPeerType np) pol) as Ho.
    fold (f np) in Hg, Hi, Ho |- *.
    destruct (f np w) as [[[]|e] w1]; cbn [fst snd] in *.
    + destruct (IH w1) as (Hg1 & Hi1 & Ho1). fold f in Hg1, Hi1, Ho1.
      split; [|split].
      * destruct Hg as [? ?], Hg1 as [? ?]. split; auto.
      * intros Hr np' [->|Hnp]%elem_of_cons; [|by apply Hi1].
        apply (grows_peers_in w1); [done|]. by apply Hi.
      * intros Hopt. destruct (Ho Hopt) as [_ Hopt1]. apply Ho1. by rewrite Hopt1.
    + split; [done|]. split; [done|]. intros Hopt. by destruct (Ho Hopt).
Qed.

(** X10. An "open" message adds the listed peers in order, all with the
    message's bePolite flag, and never drops a session: every key that was in
    [this.peers] is still there with the same object; when the handler
    returns normally every listed peerId is in [this.peers]; and it does
    return normally when data channels are disabled. *)
Theorem open_adds_listed_peers (E : Engine) (w : World) (sender : string)
    (cs : list NewPeer) (pol : JsVal) (d : option SessionDescription) (ic : JsVal) :
  let r := signalingMessageHandler E
             {| from := sender;
                payload := {| action := "open"; connections := Some cs;
                              bePolite := pol; sdp := d; ice := ic |} |} w in
  (forall k l, peers w !! k = Some l -> peers r.2 !! k = Some l)
  /\ (r.1 = Normal tt -> forall np, np ∈ cs -> peers_in r.2 (newPeerId np) = true)
  /\ (enableDataChannel (options w) = false -> r.1 = Normal tt).
Proof.
  intros r. destruct (open_loop E pol cs w) as ([Hg _] & Hi & Ho).
  split; [exact Hg|]. split; [exact Hi|exact Ho].
Qed.

Lemma open_adds_listed_peers_witness :
  let r := signalingMessageHandler (engine_ok "stable")
             (open_message [{| newPeerId := "bob"; newPeerType := "robot" |};
                            {| newPeerId := "carol"; newPeerType := "robot" |}]
                (JBool true))
             (constructor "alice" "robot" without_channels) in
  r.1 = Normal tt
  /\ peers_in r.2 "bob" = true /\ peers_in r.2 "carol" = true.
Proof.
  intros r.
  destruct (open_adds_listed_peers (engine_ok "stable")
              (constructor "alice" "robot" without_channels) "server"
              [{| newPeerId := "bob"; newPeerType := "robot" |};
               {| newPeerId := "carol"; newPeerType := "robot" |}]
              (JBool true) None JUndefined) as (_ & Hin & Hr).
  split; [exact (Hr eq_refl)|]. split.
  - apply (Hin (Hr eq_refl) {| newPeerId := "bob"; newPeerType := "robot" |}).
    apply list_elem_of_here.
  - apply (Hin (Hr eq_refl) {| newPeerId := "carol"; newPeerType := "robot" |}).
    apply list_elem_of_further, list_elem_of_here.
Defined.

(** ** Messages: more of the "sdp" branch *)

(** X12. An "sdp" message that carries no description, from a peer with a
    session: when verbose, line 54 reads [sdp.type] and the handler throws a
    TypeError to the signaling channel; otherwise the TypeError arises inside
    updateSessionDescription and is logged with console.error.  Either way no
    call reaches the engine and the session is unchanged. *)
Theorem sdp_without_description (E : Engine) (w : World) (m : Message) (l : loc) (p : Peer) :
  action (payload m) = "sdp" -> sdp (payload m) = None ->
  peers w !! from m = Some l -> heap w !! l = Some p ->
  signalingMessageHandler E m w
  = if verbose w
    then (Throw (TypeError "Cannot read properties of undefined (reading 'type')"), w)
    else (Normal tt,
          record (ConsoleError
                    (TypeError "Cannot read properties of undefined (reading 'type')")) w).
Proof.
  destruct m as [sender [a cs bp d ic]]. cbn [payload action from sdp].
  intros -> -> Hk Hp.
  assert (peers_get w sender = RefPeer l) as Hg by (unfold peers_get; by rewrite Hk).
  unfold signalingMessageHandler.
  cbn [payload action from ice sdp String.eqb Ascii.eqb Bool.eqb].
  destruct (verbose w) eqn:Hv; repeat (progress (mred; rewrite ?Hv, ?Hg, ?Hp)); done.
Qed.

Lemma sdp_without_description_witness :
  signalingMessageHandler (engine_ok "stable") (message "bob" "sdp" None JUndefined)
    (alice_bob (JBool false))
  = (Normal tt,
     record (ConsoleError
               (TypeError "Cannot read properties of undefined (reading 'type')"))
       (alice_bob (JBool false))).
Proof.
  exact (sdp_without_description (engine_ok "stable") (alice_bob (JBool false))
           (message "bob" "sdp" None JUndefined) 0 (bob_session (JBool false))
           eq_refl eq_refl eq_refl eq_refl).
Defined.

(** X13. Handling an "sdp" message never raises, whoever sent it and
    whatever it carries and the engine answers: with verbose unset the handler
    returns normally and leaves no unhandled rejection, the whole body of
    updateSessionDescription being inside its try. *)
Theorem sdp_never_raises (E : Engine) (w : World) (m : Message) :
  action (payload m) = "sdp" -> verbose w = false ->
  let r := signalingMessageHandler E m w in
  r.1 = Normal tt
  /\ forallb (fun e => negb (is_rejection e)) (since w r.2) = true.
Proof.
  intros Ha Hv r. destruct m as [sender [a cs bp d ic]]. cbn [payload action] in Ha.
  subst a.
  assert (signalingMessageHandler E
            {| from := sender;
               payload := {| action := "sdp"; connections := cs; bePolite := bp;
                             sdp := d; ice := ic |} |} w
          = spawn (updateSessionDescription E (peers_get w sender) d) w) as Hs.
  { unfold signalingMessageHandler.
    cbn [payload action from ice sdp String.eqb Ascii.eqb Bool.eqb].
    unfold bind at 1, get. cbv beta iota. rewrite Hv. reflexivity. }
  subst r. rewrite Hs. split.
  - unfold spawn. by destruct (updateSessionDescription _ _ _ _) as [[[]|?] ?].
  - apply emits_since. apply emits_spawn_total; [|apply total_updateSessionDescription].
    emit_unfold. emit_walk.
Qed.

Lemma sdp_never_raises_witness :
  let r := signalingMessageHandler engine_no_rollback
             (message "mallory" "sdp" (Some (offer_from "mallory")) JUndefined)
             (alice_bob (JBool true)) in
  r.1 = Normal tt
  /\ forallb (fun e => negb (is_rejection e)) (since (alice_bob (JBool true)) r.2) = true.
Proof.
  intros r.
  exact (sdp_never_raises engine_no_rollback (alice_bob (JBool true))
           (message "mallory" "sdp" (Some (offer_from "mallory")) JUndefined)
           eq_refl eq_refl).
Defined.

(** ** The callbacks installed on a connection *)

(** X15. However the negotiation-needed callback ends (a polite session, an
    offer sent, createOffer or setLocalDescription rejecting), the session's
    makingOffer is false afterwards, the callback's promise does not reject,
    and the session map is untouched. *)
Theorem negotiationneeded_always_settles (E : Engine) (w : World) (c : conn)
    (l : loc) (p : Peer) :
  wired w !! c = Some l -> heap w !! l = Some p ->
  let r := negotiationneeded E c w in
  r.1 = Normal tt
  /\ makingOffer <$> heap r.2 !! l = Some false
  /\ forallb (fun e => negb (is_rejection e)) (since w r.2) = true
  /\ peers r.2 = peers w.
Proof.
  intros Hc H r. split; [|split; [|split]].
  - subst r. unfold negotiationneeded, bind, get. rewrite Hc. unfold spawn.
    by destruct (onnegotiationneeded _ _ _ _) as [[[]|?] ?].
  - subst r. mrun H. rewrite Hc. mrun H.
    destruct (truthy (polite p)); mrun H; [done|].
    destruct (eng_createOffer E (trace w) c) as [e|offer]; mrun H; [done|].
    destruct (eng_setLocalDescription E _ c offer); mrun H; [done|].
    destruct (verbose w); by mrun H.
  - apply emits_since. unfold negotiationneeded.
    apply emits_bind; [apply emits_get|]. intros w0.
    destruct (wired w0 !! c); [|apply emits_ret].
    apply emits_spawn_total; [|apply total_onnegotiationneeded].
    emit_unfold. emit_walk.
  - apply (lifts_negotiationneeded (fun w w' => peers w' = peers w)); try done.
    intros w1 w2 w3. congruence.
Qed.

Lemma negotiationneeded_always_settles_witness :
  let w := alice_bob (JBool false) in
  let r := negotiationneeded engine_no_local 0 w in
  r.1 = Normal tt /\ makingOffer <$> heap r.2 !! 0 = Some false.
Proof.
  intros w r.
  destruct (negotiationneeded_always_settles engine_no_local w 0 0
              (bob_session (JBool false)) eq_refl eq_refl) as (Hr & Hm & _).
  split; [exact Hr|exact Hm].
Defined.

(** X16. On an impolite session, when createOffer rejects, or when the
    offer is created and setLocalDescription rejects it, the error is written
    to console.error and no message is sent: the trace gains the calls made
    and the error, nothing more. *)
Theorem negotiationneeded_failure_logged (E : Engine) (w : World) (c : conn)
    (l : loc) (p : Peer) (e : Error) :
  wired w !! c = Some l -> heap w !! l = Some p -> truthy (polite p) = false ->
  let r := negotiationneeded E c w in
  (eng_createOffer E (trace w) c = inl e ->
   since w r.2 = [CreateOffer c; ConsoleError e])
  /\ (forall offer,
        eng_createOffer E (trace w) c = inr offer ->
        eng_setLocalDescription E (trace w ++ [CreateOffer c]) c offer = Some e ->
        since w r.2 = [CreateOffer c; SetLocalDescription c offer; ConsoleError e]).
Proof.
  intros Hc H Hp r. split.
  - intros Ho. by destruct (negotiationneeded_createOffer_fails E w c l p e Hc H Hp Ho).
  - intros offer Ho Hs. subst r. unfold since.
    mrun H. rewrite Hc. mrun H. rewrite Hp. mrun H. rewrite Ho. mrun H.
    rewrite Hs. mrun H.
    rewrite <- ?app_assoc; cbn [app]; rewrite drop_app_length; done.
Qed.

Lemma negotiationneeded_failure_logged_witness :
  let w := alice_bob (JBool false) in
  since w (negotiationneeded engine_no_local 0 w).2
  = [CreateOffer 0; SetLocalDescription 0 (offer_from "alice");
     ConsoleError (EngineError "setLocalDescription failed")].
Proof.
  intros w.
  destruct (negotiationneeded_failure_logged engine_no_local w 0 0
              (bob_session (JBool false)) (EngineError "setLocalDescription failed")
              eq_refl eq_refl eq_refl) as [_ Hs].
  exact (Hs (offer_from "alice") eq_refl eq_refl).
Defined.

(** X14. A candidate travels unchanged: each candidate the engine reports on
    a connection is sent to that connection's peer as one "ice" message, the
    null end-of-candidates marker included; the receiving manager, given that
    message, hands the candidate to addIceCandidate on its session for the
    sender, once, unless the candidate is the null or empty marker, which it
    drops.  Nothing else changes on either side (the engine accepting the
    candidate). *)
Theorem candidate_round_trip (EB : Engine) (wA wB : World) (c : conn) (lA lB : loc)
    (pA pB : Peer) (candidate : JsVal) :
  wired wA !! c = Some lA -> heap wA !! lA = Some pA ->
  peers wB !! ourPeerId wA = Some lB -> heap wB !! lB = Some pB ->
  eng_addIceCandidate EB (trace wB) (rtcPeerConnection pB) candidate = None ->
  icecandidate c candidate wA
  = (Normal tt, record (SendTo (peerId pA) (OutIce candidate)) wA)
  /\ signalingMessageHandler EB (delivered (ourPeerId wA) (OutIce candidate)) wB
     = (Normal tt,
        if truthy candidate
        then record (AddIceCandidate (rtcPeerConnection pB) candidate) wB
        else wB).
Proof.
  intros Hc HA Hk HB He. split.
  - mrun HA. rewrite Hc. by mrun HA.
  - rewrite (dispatch_ice_session EB wB lB (delivered (ourPeerId wA) (OutIce candidate))
               eq_refl Hk).
    cbn [delivered payload ice]. unfold spawn.
    destruct (truthy candidate) eqn:Ht.
    + mrun HB. rewrite Ht. mrun HB. rewrite He. by mrun HB.
    + by rewrite (updateIceCandidate_falsy EB wB lB pB candidate HB Ht).
Qed.

Lemma candidate_round_trip_witness :
  let wA := alice_bob (JBool false) in
  icecandidate 0 (JObj "candidate:1") wA
  = (Normal tt, record (SendTo "bob" (OutIce (JObj "candidate:1"))) wA)
  /\ signalingMessageHandler (engine_ok "stable")
       (delivered "alice" (OutIce (JObj "candidate:1"))) bob_alice
     = (Normal tt, record (AddIceCandidate 0 (JObj "candidate:1")) bob_alice).
Proof.
  intros wA.
  exact (candidate_round_trip (engine_ok "stable") wA bob_alice 0 0 0
           (bob_session (JBool false)) (alice_session (JBool true))
           (JObj "candidate:1") eq_refl eq_refl eq_refl eq_refl eq_refl).
Defined.

(** X17. On an ICE connection state change the callback calls restartIce
    exactly when the state is "failed"; it does nothing otherwise, and in
    neither case closes the connection or removes the session. *)
Theorem iceconnectionstatechange_restarts (E : Engine) (w : World) (c : conn) (l : loc) :
  wired w !! c = Some l ->
  iceconnectionstatechange E c w
  = (Normal tt,
     if String.eqb (eng_iceConnectionState E (trace w) c) "failed"
     then record (RestartIce c) w else w).
Proof.
  intros Hc. mred. rewrite Hc. mred.
  by destruct (String.eqb (eng_iceConnectionState E (trace w) c) "failed").
Qed.

Lemma iceconnectionstatechange_restarts_witness :
  iceconnectionstatechange engine_ice_failed 0 (alice_bob (JBool true))
  = (Normal tt, record (RestartIce 0) (alice_bob (JBool true))).
Proof.
  exact (iceconnectionstatechange_restarts engine_ice_failed (alice_bob (JBool true))
           0 0 eq_refl).
Defined.

(** ** updateSessionDescription: the paths without a collision *)

(** X18. A description that is not an offer (an answer, a pranswer) is handed
    to setRemoteDescription and nothing else is called or sent; if the engine
    rejects it the error is written to console.error.  The handler returns
    normally either way. *)
Theorem answer_applied (E : Engine) (w : World) (l : loc) (p : Peer)
    (d : SessionDescription) :
  heap w !! l = Some p -> type d <> "offer" ->
  let c := rtcPeerConnection p in
  let r := updateSessionDescription E (RefPeer l) (Some d) w in
  r.1 = Normal tt
  /\ since w r.2
     = SetRemoteDescription c d
       :: match eng_setRemoteDescription E (trace w) c d with
          | Some e => [ConsoleError e]
          | None => []
          end.
Proof.
  intros H Ht c r. subst r c. apply String.eqb_neq in Ht. unfold since.
  mrun H. rewrite Ht. mrun H. rewrite andb_false_r. mrun H.
  destruct (eng_setRemoteDescription E (trace w) (rtcPeerConnection p) d);
    mrun H; rewrite ?Ht; mrun H;
    rewrite <- ?app_assoc; cbn [app]; rewrite drop_app_length; done.
Qed.

Lemma answer_applied_witness :
  let w := alice_bob (JBool false) in
  let r := updateSessionDescription (engine_ok "have-local-offer") (RefPeer 0)
             (Some (answer_from "bob")) w in
  r.1 = Normal tt /\ since w r.2 = [SetRemoteDescription 0 (answer_from "bob")].
Proof.
  intros w r.
  assert (type (answer_from "bob") <> "offer") as Ht by discriminate.
  exact (answer_applied (engine_ok "have-local-offer") w 0 (bob_session (JBool false))
           (answer_from "bob") eq_refl Ht).
Defined.

(** X19. An offer that meets no collision (makingOffer false, signaling
    state "stable") is answered without a rollback, by a polite and an impolite
    session alike: setRemoteDescription, createAnswer, setLocalDescription
    with the answer, then one "sdp" message to the peer; this when each call
    succeeds. *)
Theorem offer_without_collision_answered (E : Engine) (w : World) (l : loc)
    (p : Peer) (d answer : SessionDescription) :
  heap w !! l = Some p -> type d = "offer" ->
  makingOffer p = false ->
  eng_signalingState E (trace w) (rtcPeerConnection p) = "stable" ->
  let c := rtcPeerConnection p in
  let h1 := trace w ++ [SetRemoteDescription c d] in
  let h2 := h1 ++ [CreateAnswer c] in
  let h3 := h2 ++ [SetLocalDescription c answer] ++ sending_answer w p in
  eng_setRemoteDescription E (trace w) c d = None ->
  eng_createAnswer E h1 c = inr answer ->
  eng_setLocalDescription E h2 c answer = None ->
  let r := updateSessionDescription E (RefPeer l) (Some d) w in
  r.1 = Normal tt
  /\ since w r.2
     = [SetRemoteDescription c d; CreateAnswer c; SetLocalDescription c answer]
       ++ sending_answer w p
       ++ [SendTo (peerId p) (OutSdp (eng_localDescription E h3 c))].
Proof.
  intros H Ht Hm Hst c h1 h2 h3 H1 H2 H3 r. apply String.eqb_eq in Ht.
  subst r h3 h2 h1 c. unfold since, sending_answer.
  mrun H. rewrite Ht. mrun H. rewrite Hm. mrun H. rewrite Hst.
  change (("stable" =? "stable")%string) with true. mrun H.
  rewrite andb_false_r. mrun H. rewrite H1. mrun H.
  rewrite H2. mrun H. rewrite H3. mrun H.
  destruct (verbose w); mrun H; cbn [app];
    rewrite <- ?app_assoc; cbn [app]; rewrite drop_app_length; done.
Qed.

Lemma offer_without_collision_answered_witness :
  let w := alice_bob (JBool false) in
  let d := offer_from "bob" in
  let r := updateSessionDescription (engine_ok "stable") (RefPeer 0) (Some d) w in
  r.1 = Normal tt
  /\ since w r.2
     = [SetRemoteDescription 0 d; CreateAnswer 0;
        SetLocalDescription 0 (answer_from "alice");
        SendTo "bob" (OutSdp (Some (answer_from "alice")))].
Proof.
  intros w d r.
  exact (offer_without_collision_answered (engine_ok "stable") w 0
           (bob_session (JBool false)) d (answer_from "alice")
           eq_refl eq_refl eq_refl eq_refl eq_refl eq_refl eq_refl).
Defined.

(** X20. An offer the engine refuses is not answered: when
    setRemoteDescription rejects an offer that met no collision, the error is
    logged, and createAnswer is not called and nothing is sent. *)
Theorem offer_refused_not_answered (E : Engine) (w : World) (l : loc)
    (p : Peer) (d : SessionDescription) (e : Error) :
  heap w !! l = Some p -> type d = "offer" ->
  makingOffer p = false ->
  eng_signalingState E (trace w) (rtcPeerConnection p) = "stable" ->
  eng_setRemoteDescription E (trace w) (rtcPeerConnection p) d = Some e ->
  let r := updateSessionDescription E (RefPeer l) (Some d) w in
  r.1 = Normal tt
  /\ since w r.2 = [SetRemoteDescription (rtcPeerConnection p) d; ConsoleError e].
Proof.
  intros H Ht Hm Hst H1 r. apply String.eqb_eq in Ht. subst r. unfold since.
  mrun H. rewrite Ht. mrun H. rewrite Hm. mrun H. rewrite Hst.
  change (("stable" =? "stable")%string) with true. mrun H.
  rewrite andb_false_r. mrun H. rewrite H1. mrun H.
  rewrite <- ?app_assoc; cbn [app]; rewrite drop_app_length; done.
Qed.

(** X21. On a polite session in a collision, when the engine rejects the
    rollback the handler stops there: the error is logged, the incoming offer
    is not applied, no answer is created or sent, and ignoreOffer is false. *)
Theorem rollback_rejected_stops (E : Engine) (w : World) (l : loc)
    (p : Peer) (d : SessionDescription) (e : Error) :
  heap w !! l = Some p -> truthy (polite p) = true -> collides E w p d = true ->
  eng_setLocalDescription E (trace w) (rtcPeerConnection p) rollback = Some e ->
  let r := updateSessionDescription E (RefPeer l) (Some d) w in
  r.1 = Normal tt
  /\ since w r.2 = [SetLocalDescription (rtcPeerConnection p) rollback; ConsoleError e]
  /\ ignoreOffer <$> heap r.2 !! l = Some false.
Proof.
  intros H Hp Hc H1 r. subst r. unfold since.
  unfold collides in Hc. apply andb_true_iff in Hc as [Ht Hc].
  mrun H. rewrite Ht. mrun H.
  destruct (makingOffer p) eqn:Hm; mrun H.
  - rewrite Hp. mrun H. rewrite H1. mrun H.
    rewrite <- ?app_assoc; cbn [app]; rewrite drop_app_length; done.
  - cbn in Hc. rewrite Hc, Hp. mrun H. rewrite H1. mrun H.
    rewrite <- ?app_assoc; cbn [app]; rewrite drop_app_length; done.
Qed.

Lemma offer_refused_not_answered_witness :
  let E := {| eng_createDataChannel := fun _ _ _ => None;
              eng_createOffer := fun _ _ => inr (offer_from "alice");
              eng_createAnswer := fun _ _ => inr (answer_from "alice");
              eng_setLocalDescription := fun _ _ _ => None;
              eng_setRemoteDescription := fun _ _ _ => Some (EngineError "bad sdp");
              eng_addIceCandidate := fun _ _ _ => None;
              eng_signalingState := fun _ _ => "stable";
              eng_iceConnectionState := fun _ _ => "new";
              eng_localDescription := last_local |} in
  let w := alice_bob (JBool true) in
  since w (updateSessionDescription E (RefPeer 0) (Some (offer_from "bob")) w).2
  = [SetRemoteDescription 0 (offer_from "bob"); ConsoleError (EngineError "bad sdp")].
Proof.
  intros E w.
  exact (proj2 (offer_refused_not_answered E w 0 (bob_session (JBool true))
                  (offer_from "bob") (EngineError "bad sdp")
                  eq_refl eq_refl eq_refl eq_refl eq_refl)).
Defined.

Lemma rollback_rejected_stops_witness :
  let w := alice_bob (JBool true) in
  let r := updateSessionDescription engine_no_rollback (RefPeer 0)
             (Some (offer_from "bob")) w in
  since w r.2
  = [SetLocalDescription 0 rollback; ConsoleError (EngineError "rollback is not supported")]
  /\ ignoreOffer <$> heap r.2 !! 0 = Some false.
Proof.
  intros w r.
  exact (proj2 (rollback_rejected_stops engine_no_rollback w 0 (bob_session (JBool true))
                  (offer_from "bob") (EngineError "rollback is not supported")
                  eq_refl eq_refl eq_refl eq_refl)).
Defined.

(** ** Removing sessions *)

(** X22. A "close" message from a peer with a session closes the session's
    data channel, if it has one, and then its connection, each once, and
    deletes that peer's key from [this.peers]; the other keys, the session
    objects and the installed callbacks are left as they are. *)
Theorem close_removes_session (E : Engine) (w : World) (m : Message) (l : loc) (p : Peer) :
  action (payload m) = "close" ->
  peers w !! from m = Some l -> heap w !! l = Some p -> peerId p = from m ->
  let r := signalingMessageHandler E m w in
  r.1 = Normal tt
  /\ peers r.2 = delete (from m) (peers w)
  /\ heap r.2 = heap w
  /\ wired r.2 = wired w
  /\ since w r.2
     = closing p
       ++ (if verbose w
           then [ConsoleLog ("Connection with " +:+ from m +:+ " has been removed")]
           else []).
Proof.
  intros Ha Hk Hp Hid r. subst r.
  rewrite (dispatch_close E w m Ha), (remove_session w (from m) l Hk).
  destruct (removePeer_session w l p Hp) as (Hr & Hps & Hh & Hw & _ & _ & Ht).
  rewrite Hid in Hps, Ht. repeat split; try done.
  unfold since. by rewrite Ht, drop_app_length.
Qed.

Lemma close_removes_session_witness :
  let w := alice_bob_carol in
  let r := signalingMessageHandler (engine_ok "stable")
             (message "bob" "close" None JUndefined) w in
  r.1 = Normal tt
  /\ peers r.2 = delete "bob" (peers w)
  /\ since w r.2 = [CloseDataChannel 1; CloseConnection 0].
Proof.
  intros w r.
  destruct (close_removes_session (engine_ok "stable") w
              (message "bob" "close" None JUndefined) 0 (bob_session (JBool false))
              eq_refl eq_refl eq_refl eq_refl) as (Hr & Hp & _ & _ & Hs).
  split; [exact Hr|]. split; [exact Hp|exact Hs].
Defined.

(** X23. For a peerId that does not name a member of Object.prototype,
    [remove] is idempotent in a state that satisfies the invariant: on an id
    without a session it does nothing, and after removing a session a second
    call finds nothing and changes nothing. *)
Theorem remove_idempotent (w : World) (k : string) :
  wf w = true -> builtin k = false ->
  (peers w !! k = None -> remove k w = (Normal tt, w))
  /\ (forall l, peers w !! k = Some l ->
        let w1 := (remove k w).2 in
        (remove k w).1 = Normal tt
        /\ peers w1 !! k = None
        /\ remove k w1 = (Normal tt, w1)).
Proof.
  intros Hw Hb. split.
  - intros Hk. by apply remove_absent.
  - intros l Hk. by apply (remove_twice w k l).
Qed.

Lemma remove_idempotent_witness :
  let w1 := (remove "bob" alice_bob_carol).2 in
  (remove "bob" alice_bob_carol).1 = Normal tt
  /\ peers w1 !! "bob" = None
  /\ remove "bob" w1 = (Normal tt, w1).
Proof.
  intros w1.
  destruct (remove_idempotent alice_bob_carol "bob" eq_refl eq_refl) as [_ H].
  exact (H 0 eq_refl).
Defined.

(** X24. removePeer does not remember what it released: handed the same
    session object a second time (an object kept by the host, say) it closes
    the data channel and the connection again. *)
Theorem removePeer_releases_again (w : World) (l : loc) (p : Peer) :
  heap w !! l = Some p ->
  let w1 := (removePeer (RefPeer l) w).2 in
  let r := removePeer (RefPeer l) w1 in
  r.1 = Normal tt
  /\ (forall e, e ∈ closing p -> e ∈ since w w1 /\ e ∈ since w1 r.2).
Proof.
  intros H w1 r.
  destruct (removePeer_same_object_twice w l p H) as [Hr Hs].
  fold w1 r in Hr, Hs. split; [done|]. intros e He.
  destruct (removePeer_session w l p H) as (_ & _ & _ & _ & _ & _ & Ht).
  fold w1 in Ht. split.
  - unfold since. rewrite Ht, drop_app_length. apply elem_of_app. by left.
  - rewrite Hs. apply elem_of_app. by left.
Qed.

Lemma removePeer_releases_again_witness :
  let w := alice_bob (JBool true) in
  let w1 := (removePeer (RefPeer 0) w).2 in
  CloseConnection 0 ∈ since w w1
  /\ CloseConnection 0 ∈ since w1 (removePeer (RefPeer 0) w1).2.
Proof.
  intros w w1.
  destruct (removePeer_releases_again w 0 (bob_session (JBool true)) eq_refl) as [_ H].
  apply (H (CloseConnection 0)). apply list_elem_of_further, list_elem_of_here.
Defined.

(** X25. Removing a session does not uninstall the callbacks of its
    connection: a candidate the engine reports on that connection afterwards
    is still sent, to the peer that is no longer in [this.peers]. *)
Theorem removed_session_keeps_callbacks (w : World) (c : conn) (l : loc) (p : Peer)
    (candidate : JsVal) :
  heap w !! l = Some p -> wired w !! c = Some l ->
  let w1 := (removePeer (RefPeer l) w).2 in
  peers w1 !! peerId p = None
  /\ icecandidate c candidate w1
     = (Normal tt, record (SendTo (peerId p) (OutIce candidate)) w1).
Proof.
  intros H Hc w1.
  destruct (removePeer_session w l p H) as (_ & Hps & Hh & Hw & _).
  fold w1 in Hps, Hh, Hw. split.
  - rewrite Hps. apply lookup_delete_eq.
  - rewrite <- Hw in Hc. rewrite <- Hh in H. clear Hps Hh Hw.
    generalize dependent w1. intros w1 Hc H. mrun H. rewrite Hc. by mrun H.
Qed.

Lemma removed_session_keeps_callbacks_witness :
  let w1 := (removePeer (RefPeer 0) (alice_bob (JBool true))).2 in
  peers w1 !! "bob" = None
  /\ icecandidate 0 (JObj "candidate:1") w1
     = (Normal tt, record (SendTo "bob" (OutIce (JObj "candidate:1"))) w1).
Proof.
  intros w1.
  exact (removed_session_keeps_callbacks (alice_bob (JBool true)) 0 0
           (bob_session (JBool true)) (JObj "candidate:1") eq_refl eq_refl).
Defined.

Lemma ownKeys_empty (K : KeyOrder) : ownKeys K ∅ = [].
Proof.
  destruct (ownKeys K ∅) as [|k ks] eqn:Hks; [done|].
  assert (k ∈ ownKeys K ∅) as Hin by (rewrite Hks; apply list_elem_of_here).
  apply ownKeys_spec in Hin as [l Hl]. by rewrite lookup_empty in Hl.
Qed.

(** X26. While Object.prototype is untouched, the disconnect handler, in a
    state that satisfies the invariant and with any number of sessions,
    returns normally having closed the connection and the data channel of
    every session and emptied [this.peers]; a second disconnect then does
    nothing. *)
Theorem disconnect_removes_all (K : KeyOrder) (w : World) :
  wf w = true -> polluted w = false ->
  let r := signalingDisconnectHandler K w in
  r.1 = Normal tt
  /\ peers r.2 = ∅
  /\ (forall k l p, peers w !! k = Some l -> heap w !! l = Some p ->
        forall e, e ∈ closing p -> e ∈ since w r.2)
  /\ signalingDisconnectHandler K r.2 = (Normal tt, r.2).
Proof.
  intros Hw Hpol r.
  assert (signalingDisconnectHandler K w
          = forEach (ownKeys K (peers w)) signalingDisconnectHandler_body w) as Heq.
  { unfold signalingDisconnectHandler, bind at 1, get, forIn_keys. cbv beta iota.
    rewrite Hpol. cbn [andb]. by rewrite app_nil_r. }
  destruct (disconnect_own_keys K w Hw) as (Hr & He & Hpol1 & Hc).
  subst r. rewrite Heq. split; [done|]. split; [done|]. split.
  - intros k l p Hk Hp e Hin. destruct (Hc k l p Hk Hp) as [Hcc Hch].
    unfold closing in Hin. destruct (dataChannel p) as [ch|] eqn:Hd.
    + apply elem_of_cons in Hin as [->|Hin]; [by apply Hch|].
      apply list_elem_of_singleton in Hin as ->. done.
    + apply list_elem_of_singleton in Hin as ->. done.
  - unfold signalingDisconnectHandler, bind at 1, get, forIn_keys. cbv beta iota.
    rewrite He, Hpol1, Hpol, ownKeys_empty. reflexivity.
Qed.

Lemma disconnect_removes_all_witness :
  let r := signalingDisconnectHandler mapOrder alice_bob_carol in
  r.1 = Normal tt /\ peers r.2 = ∅
  /\ signalingDisconnectHandler mapOrder r.2 = (Normal tt, r.2).
Proof.
  intros r.
  destruct (disconnect_removes_all mapOrder alice_bob_carol eq_refl eq_refl)
    as (Hr & He & _ & H2).
  split; [exact Hr|]. split; [exact He|exact H2].
Defined.

(** X27. An "sdp" message whose sender is "__proto__" and that carries
    anything but an offer adds no session, yet line 165 then writes to
    Object.prototype: afterwards ["ignoreOffer" in this.peers] is true, so a
    peer of that name can no longer be added. *)
Theorem proto_sender_pollutes (E : Engine) (w : World) (m : Message)
    (d : SessionDescription) :
  action (payload m) = "sdp" -> from m = "__proto__" ->
  sdp (payload m) = Some d -> type d <> "offer" ->
  peers w !! "__proto__" = None ->
  let r := signalingMessageHandler E m w in
  r.1 = Normal tt
  /\ peers r.2 = peers w
  /\ peers_in r.2 "ignoreOffer" = true
  /\ forall t pol, peers (addPeer E "ignoreOffer" t pol r.2).2 = peers w.
Proof.
  intros Ha Hf Hs Ht Hk r.
  destruct (sdp_from_proto_pollutes E w m d Ha Hf Hs Ht Hk) as (Hr & Hpol & Hps & _).
  fold r in Hr, Hpol, Hps.
  assert (peers_in r.2 "ignoreOffer" = true) as Hin.
  { unfold peers_in, inherits_ignoreOffer. rewrite Hpol.
    destruct (peers r.2 !! "ignoreOffer"); [done|]. apply orb_true_r. }
  repeat split; try done.
  intros t pol. rewrite (addPeer_existing E r.2 "ignoreOffer" t pol Hin).
  by destruct (verbose r.2).
Qed.

Lemma proto_sender_pollutes_witness :
  let r := signalingMessageHandler (engine_ok "stable")
             (message "__proto__" "sdp" (Some (answer_from "mallory")) JUndefined) alice in
  peers_in alice "ignoreOffer" = false
  /\ r.1 = Normal tt
  /\ peers_in r.2 "ignoreOffer" = true.
Proof.
  intros r.
  assert (type (answer_from "mallory") <> "offer") as Ht by discriminate.
  destruct (proto_sender_pollutes (engine_ok "stable") alice
              (message "__proto__" "sdp" (Some (answer_from "mallory")) JUndefined)
              (answer_from "mallory") eq_refl eq_refl eq_refl Ht eq_refl)
    as (Hr & _ & Hin & _).
  split; [reflexivity|]. split; [exact Hr|exact Hin].
Defined.

(** ** How the pieces compose *)

(** X28. The peers of an "open" message are added in order and the first
    addPeer that throws ends the handler: the exception reaches the signaling
    channel and no peer listed after it is added. *)
Theorem open_stops_at_first_failure (E : Engine) (w w1 : World) (sender : string)
    (before after : list NewPeer) (np : NewPeer) (pol : JsVal)
    (d : option SessionDescription) (ic : JsVal) (e : Error) :
  let f := fun np => addPeer E (newPeerId np) (newPeerType np) pol in
  forEach before f w = (Normal tt, w1) ->
  (f np w1).1 = Throw e ->
  signalingMessageHandler E
    {| from := sender;
       payload := {| action := "open"; connections := Some (before ++ np :: after);
                     bePolite := pol; sdp := d; ice := ic |} |} w
  = (Throw e, (f np w1).2).
Proof.
  intros f Hb He. unfold signalingMessageHandler.
  cbn [payload action connections bePolite String.eqb Ascii.eqb Bool.eqb].
  fold f. rewrite (forEach_app f before (np :: after) w w1 Hb).
  cbn [forEach]. unfold bind. destruct (f np w1) as [[[]|e'] w2]; cbn in He; [done|].
  by injection He as ->.
Qed.

Lemma open_stops_at_first_failure_witness :
  let r := signalingMessageHandler engine_no_channel
             (open_message [{| newPeerId := "bob"; newPeerType := "robot" |};
                            {| newPeerId := "carol"; newPeerType := "robot" |}]
                (JBool true)) alice in
  r.1 = Throw (EngineError "createDataChannel failed")
  /\ peers_in r.2 "carol" = false.
Proof.
  intros r.
  pose proof (open_stops_at_first_failure engine_no_channel alice alice "server" []
                [{| newPeerId := "carol"; newPeerType := "robot" |}]
                {| newPeerId := "bob"; newPeerType := "robot" |}
                (JBool true) None JUndefined (EngineError "createDataChannel failed")
                eq_refl eq_refl) as H.
  change (r = (Throw (EngineError "createDataChannel failed"),
               (addPeer engine_no_channel "bob" "robot" (JBool true) alice).2)) in H.
  rewrite H. split; [reflexivity|vm_compute; reflexivity].
Defined.

Lemma dispatch_sdp_session (E : Engine) (w : World) (m : Message) (l : loc) :
  action (payload m) = "sdp" -> verbose w = false -> peers w !! from m = Some l ->
  signalingMessageHandler E m w
  = (Normal tt, (updateSessionDescription E (RefPeer l) (sdp (payload m)) w).2).
Proof.
  intros Ha Hv Hk. destruct m as [sender [a cs bp d ic]].
  cbn [payload action from sdp] in *. subst a.
  assert (peers_get w sender = RefPeer l) as Hg by (unfold peers_get; by rewrite Hk).
  unfold signalingMessageHandler.
  cbn [payload action from ice sdp String.eqb Ascii.eqb Bool.eqb].
  unfold bind at 1, get. cbv beta iota. rewrite Hv, Hg.
  unfold bind at 1, ret, spawn.
  destruct (total_updateSessionDescription E (RefPeer l) d w) as [[] Hn].
  destruct (updateSessionDescription E (RefPeer l) d w) as [r w1].
  cbn in Hn. by subst r.
Qed.

(** X11. An offer/answer exchange between two managers, each call into the
    engines succeeding and verbose unset.  alice holds an impolite session for
    bob, bob a session for alice that is at rest.  A negotiation-needed event
    at alice sends bob her local description; bob's handler, given that
    message, applies it, creates and sets an answer and sends his local
    description back; alice's handler, given that message, applies it and
    sends nothing more: the exchange ends after two messages. *)
Theorem offer_answer_round_trip (EA EB : Engine) (wA wB : World) (lA lB : loc)
    (pA pB : Peer) (offer answer local_offer local_answer : SessionDescription) :
  let cA := rtcPeerConnection pA in
  let cB := rtcPeerConnection pB in
  (* alice's side *)
  verbose wA = false -> wired wA !! cA = Some lA -> heap wA !! lA = Some pA ->
  peers wA !! ourPeerId wB = Some lA -> peerId pA = ourPeerId wB ->
  truthy (polite pA) = false ->
  (* bob's side *)
  verbose wB = false -> peers wB !! ourPeerId wA = Some lB -> heap wB !! lB = Some pB ->
  peerId pB = ourPeerId wA -> makingOffer pB = false ->
  eng_signalingState EB (trace wB) cB = "stable" ->
  (* the descriptions the engines report as local *)
  type local_offer = "offer" -> type local_answer <> "offer" ->
  (* every call succeeds *)
  let a1 := [CreateOffer cA; SetLocalDescription cA offer] in
  let a2 := a1 ++ [SendTo (ourPeerId wB) (OutSdp (Some local_offer))] in
  let b1 := [SetRemoteDescription cB local_offer; CreateAnswer cB;
             SetLocalDescription cB answer] in
  eng_createOffer EA (trace wA) cA = inr offer ->
  eng_setLocalDescription EA (trace wA ++ [CreateOffer cA]) cA offer = None ->
  eng_localDescription EA (trace wA ++ a1) cA = Some local_offer ->
  eng_setRemoteDescription EB (trace wB) cB local_offer = None ->
  eng_createAnswer EB (trace wB ++ [SetRemoteDescription cB local_offer]) cB = inr answer ->
  eng_setLocalDescription EB
    (trace wB ++ [SetRemoteDescription cB local_offer; CreateAnswer cB]) cB answer = None ->
  eng_localDescription EB (trace wB ++ b1) cB = Some local_answer ->
  eng_setRemoteDescription EA (trace wA ++ a2) cA local_answer = None ->
  (* the three steps *)
  let rA := negotiationneeded EA cA wA in
  let rB := signalingMessageHandler EB
              (delivered (ourPeerId wA) (OutSdp (Some local_offer))) wB in
  let rA' := signalingMessageHandler EA
               (delivered (ourPeerId wB) (OutSdp (Some local_answer))) rA.2 in
  since wA rA.2 = a2
  /\ rB.1 = Normal tt
  /\ since wB rB.2 = b1 ++ [SendTo (ourPeerId wA) (OutSdp (Some local_answer))]
  /\ rA'.1 = Normal tt
  /\ since rA.2 rA'.2 = [SetRemoteDescription cA local_answer].
Proof.
  intros cA cB HvA HcA HA HkA HidA HpA HvB HkB HB HidB HmB HstB Hto Hta
    a1 a2 b1 Ho Hso Hlo Hrb Hab Hsb Hlb Hra rA rB rA'.
  apply String.eqb_eq in Hto. apply String.eqb_neq in Hta.
  (* alice makes her offer *)
  assert (rA.1 = Normal tt /\ trace rA.2 = trace wA ++ a2
          /\ heap rA.2 !! lA = Some (set_makingOffer false (set_makingOffer true pA))
          /\ peers rA.2 = peers wA /\ verbose rA.2 = false) as (HrA & HtA & HhA & HpsA & HvA').
  { subst rA a2 a1. mrun HA. rewrite HcA. mrun HA. rewrite HpA. mrun HA.
    rewrite Ho. mrun HA. rewrite Hso. mrun HA. rewrite HvA. mrun HA.
    fold cA. rewrite <- !app_assoc. cbn [app]. rewrite Hlo, HidA. done. }
  split; [unfold since; by rewrite HtA, drop_app_length|].
  (* bob answers *)
  assert (rB = (Normal tt,
                (updateSessionDescription EB (RefPeer lB) (Some local_offer) wB).2)) as HrB.
  { apply dispatch_sdp_session; done. }
  split; [by rewrite HrB|]. split.
  { rewrite HrB. cbn [snd]. unfold since. subst b1.
    replace (trace wB ++ [SetRemoteDescription cB local_offer; CreateAnswer cB])
      with ((trace wB ++ [SetRemoteDescription cB local_offer]) ++ [CreateAnswer cB])
      in Hsb by (by rewrite <- app_assoc).
    mrun HB. rewrite Hto. mrun HB. rewrite HmB. mrun HB. fold cB. rewrite HstB.
    change (("stable" =? "stable")%string) with true. mrun HB.
    rewrite andb_false_r. mrun HB. fold cB. rewrite Hrb. mrun HB.
    fold cB. rewrite Hab. mrun HB. fold cB. rewrite Hsb. mrun HB. rewrite HvB. mrun HB.
    fold cB. rewrite <- !app_assoc. cbn [app]. rewrite Hlb, HidB.
    by rewrite drop_app_length. }
  (* alice applies the answer *)
  assert (rA' = (Normal tt,
                 (updateSessionDescription EA (RefPeer lA) (Some local_answer) rA.2).2))
    as HrA'.
  { apply dispatch_sdp_session; [done|done|]. cbn [delivered from]. by rewrite HpsA. }
  split; [by rewrite HrA'|].
  rewrite HrA'. cbn [snd]. unfold since.
  rewrite <- HtA in Hra.
  clear HrA'. set (W := rA.2) in *. clearbody W.
  mrun HhA. rewrite Hta. mrun HhA. rewrite andb_false_r. mrun HhA.
  fold cA. rewrite Hra. mrun HhA. rewrite ?Hta. mrun HhA.
  by rewrite drop_app_length.
Qed.

Lemma offer_answer_round_trip_witness :
  let E := engine_ok "stable" in
  let wA := alice_bob (JBool false) in
  let rA := negotiationneeded E 0 wA in
  let rB := signalingMessageHandler E
              (delivered "alice" (OutSdp (Some (offer_from "alice")))) bob_alice in
  let rA' := signalingMessageHandler E
               (delivered "bob" (OutSdp (Some (answer_from "alice")))) rA.2 in
  since wA rA.2
  = [CreateOffer 0; SetLocalDescription 0 (offer_from "alice");
     SendTo "bob" (OutSdp (Some (offer_from "alice")))]
  /\ since bob_alice rB.2
     = [SetRemoteDescription 0 (offer_from "alice"); CreateAnswer 0;
        SetLocalDescription 0 (answer_from "alice");
        SendTo "alice" (OutSdp (Some (answer_from "alice")))]
  /\ since rA.2 rA'.2 = [SetRemoteDescription 0 (answer_from "alice")].
Proof.
  intros E wA rA rB rA'.
  assert (type (answer_from "alice") <> "offer") as Hta by discriminate.
  destruct (offer_answer_round_trip E E wA bob_alice 0 0
              (bob_session (JBool false)) (alice_session (JBool true))
              (offer_from "alice") (answer_from "alice")
              (offer_from "alice") (answer_from "alice")
              eq_refl eq_refl eq_refl eq_refl eq_refl eq_refl
              eq_refl eq_refl eq_refl eq_refl eq_refl eq_refl
              eq_refl Hta
              eq_refl eq_refl eq_refl eq_refl eq_refl eq_refl eq_refl eq_refl)
    as (H1 & _ & H2 & _ & H3).
  split; [exact H1|]. split; [exact H2|exact H3].
Defined.
